(** * ProtoView: direct sampling view and signal builder view

    A shallow embedding of the two ProtoView views found in the
    repository (the direct-sampling view and the build-message view),
    together with the packed bitmap they rely on, and the properties
    of the radio-signal acquisition core that can be stated over them.

    Machine integers are kept as [Z] with their 32-bit (or 8-bit)
    wrap-around written out; arrays are lists accessed through stdpp's
    lookup [l !! i] and insert [<[i:=x]> l]; loops whose termination is
    not structural are run on fuel and return an [outcome]. *)

From Stdlib Require Import ZArith Lia List Bool String.
From stdpp Require Import base list numbers.

Local Open Scope Z_scope.

(** ** Machine arithmetic *)

Definition u32 (x : Z) : Z := x mod 2 ^ 32.
Definition u8 (x : Z) : Z := x mod 2 ^ 8.

(** [(int)x] for a 32-bit [x]: the value from [2^31] up reads as
    negative. *)
Definition int_cast (x : Z) : Z :=
  let r := u32 x in if r <? 2 ^ 31 then r else r - 2 ^ 32.

(** Results of code that may loop or touch memory it does not own. *)
Inductive outcome (A : Type) : Type :=
  | Ret (a : A)      (* normal return *)
  | Fault            (* NULL dereference or access outside an object *)
  | OutOfFuel.       (* the loop was still running when fuel ran out *)
Arguments Ret {A} a.
Arguments Fault {A}.
Arguments OutOfFuel {A}.

Definition bind {A B} (m : outcome A) (k : A -> outcome B) : outcome B :=
  match m with
  | Ret a => k a
  | Fault => Fault
  | OutOfFuel => OutOfFuel
  end.

Notation "'let!' x ':=' m 'in' k" := (bind m (fun x => k))
  (at level 10, x name, m at level 100, k at level 200).

(** ** The bit sample buffer *)

Module Bitmap.

(** [b[byte]] of a byte buffer; bytes outside the list read as 0, which
    no valid index ever reaches. *)
Definition byte_at (b : list Z) (byte : Z) : Z :=
  default 0 (b !! Z.to_nat byte).

(** Modelled from the spec: the body of [bitmap_set], which
    [render_view_direct_sampling] calls, is missing.  Section 4.1: the
    byte offset is [index/8], the bit offset [index%8]; Section 3: an
    index is valid iff [0 <= i < C*8] and a write outside that range is
    rejected. *)
Definition bitmap_set (b : list Z) (blen bitpos : Z) (val : bool) : list Z :=
  let byte := bitpos / 8 in
  let bit := bitpos mod 8 in
  if (0 <=? bitpos) && (bitpos <? blen * 8) then
    let old := byte_at b byte in
    let new := if val then Z.lor old (Z.shiftl 1 bit)
               else Z.land old (Z.lnot (Z.shiftl 1 bit)) in
    <[Z.to_nat byte := u8 new]> b
  else b.

(** Modelled from the spec: the body of [bitmap_get] is missing as
    well; it is the read side of the same contract (Section 4.1).  A
    read outside the range yields [false]. *)
Definition bitmap_get (b : list Z) (blen bitpos : Z) : bool :=
  let byte := bitpos / 8 in
  let bit := bitpos mod 8 in
  if (0 <=? bitpos) && (bitpos <? blen * 8) then
    negb (Z.land (byte_at b byte) (Z.shiftl 1 bit) =? 0)
  else false.

End Bitmap.


(** ** Input events

    The key and event-type enumerations come from the host's input
    service; the views only compare them for equality. *)

Inductive InputKey := InputKeyUp | InputKeyDown | InputKeyRight | InputKeyLeft
                    | InputKeyOk | InputKeyBack.
Inductive InputType := InputTypePress | InputTypeRelease | InputTypeShort
                     | InputTypeLong | InputTypeRepeat.

Record InputEvent := { key : InputKey; type : InputType }.

Definition key_eqb (a b : InputKey) : bool :=
  match a, b with
  | InputKeyUp, InputKeyUp | InputKeyDown, InputKeyDown
  | InputKeyRight, InputKeyRight | InputKeyLeft, InputKeyLeft
  | InputKeyOk, InputKeyOk | InputKeyBack, InputKeyBack => true
  | _, _ => false
  end.

Definition type_eqb (a b : InputType) : bool :=
  match a, b with
  | InputTypePress, InputTypePress | InputTypeRelease, InputTypeRelease
  | InputTypeShort, InputTypeShort | InputTypeLong, InputTypeLong
  | InputTypeRepeat, InputTypeRepeat => true
  | _, _ => false
  end.

(** ** Canvas

    What a render callback asks the display to draw, in program order.
    Formatted text is kept as its arguments. *)

Inductive Font := FontPrimary | FontSecondary.

Inductive canvas_op :=
  | canvas_set_font (f : Font)
  | canvas_draw_str (x y : Z) (s : string)
  | canvas_draw_str_aligned (x y : Z) (s : string)
  | canvas_draw_dot (x y : Z)
  | canvas_draw_usec_label (x y : Z) (usec : Z)               (* "%lu usec/px" *)
  | canvas_draw_field_title (x y : Z) (name : string) (cur numfields : Z).
                                                              (* "%s field %d/%d" *)

(** ** The direct sampling view *)

Module DirectSampling.
Import Bitmap.

Definition CAPTURED_BITMAP_SIZE : Z := 128 * 64 / 8.
Definition DEFAULT_USEC_PER_PIXEL : Z := 50.
Definition USEC_PER_PIXEL_SMALL_CHANGE : Z := 5.
Definition USEC_PER_PIXEL_LARGE_CHANGE : Z := 25.
Definition USEC_PER_PIXEL_MIN : Z := 5.
Definition USEC_PER_PIXEL_MAX : Z := 300.

(** The [captured] pointer: NULL, a live heap block with its bytes, or
    a pointer whose block was handed back to the allocator. *)
Inductive bufptr :=
  | NullPtr
  | Live (bytes : list Z)
  | Dangling.

Definition is_null (p : bufptr) : bool :=
  match p with NullPtr => true | _ => false end.

Record DirectSamplingViewPrivData := {
  captured : bufptr;          (* Bitmap with the last captured screen. *)
  usec_per_pixel : Z          (* uint32_t *)
}.

(** Only [TxRxStateRx] is named by the view; the other constructors
    stand for the remaining values of the enumeration. *)
Inductive TxRxState := TxRxStateIDLE | TxRxStateRx | TxRxStateSleep.

Definition is_rx (s : TxRxState) : bool :=
  match s with TxRxStateRx => true | _ => false end.

Record ProtoViewTxRx := {
  txrx_state : TxRxState;
  debug_timer_sampling : bool
}.

Record ProtoViewApp := {
  txrx : ProtoViewTxRx;
  direct_sampling_enabled : bool;
  view_privdata : DirectSamplingViewPrivData
}.

(** Calls into the host made by the view, in program order. *)
Inductive hal_call :=
  | furi_hal_subghz_stop_async_rx
  | furi_hal_subghz_rx
  | furi_hal_gpio_init_g0_input
  | raw_sampling_worker_stop
  | furi_hal_subghz_start_async_rx
  | raw_sampling_worker_start
  | malloc (size : Z)
  | free
  | furi_hal_gpio_read_g0 (level : bool).

Definition help_screen : list canvas_op :=
  [ canvas_set_font FontSecondary;
    canvas_draw_str 2 9 "Direct sampling is a special";
    canvas_draw_str 2 18 "mode that displays the signal";
    canvas_draw_str 2 27 "captured in real time. Like in";
    canvas_draw_str 2 36 "a old CRT TV. It's very slow.";
    canvas_draw_str 2 45 "Can crash your Flipper.";
    canvas_set_font FontPrimary;
    canvas_draw_str 14 60 "To enable press OK" ]%string.


(** Lines 36-38: the bitmap is allocated only while the pointer is
    NULL.  [fresh] is what the allocator hands out: the code neither
    tests the result nor initialises the block. *)
Definition alloc_captured (fresh : list Z) (p : bufptr) : bufptr * list hal_call :=
  match p with
  | NullPtr => (Live fresh, [malloc CAPTURED_BITMAP_SIZE])
  | _ => (p, [])
  end.

(** Lines 42-50: [n] ticks starting at bit index [j].  [gpio j] is the
    level of the G0 pin when tick [j] reads it; the busy wait on the
    cycle counter that ends each tick only lets time pass. *)
Fixpoint sampling_ticks (n : nat) (j : Z) (gpio : Z -> bool) (buf : list Z)
  : list Z * list hal_call :=
  match n with
  | O => (buf, [])
  | S n' =>
      let level := gpio j in
      let buf' := bitmap_set buf CAPTURED_BITMAP_SIZE j level in
      let '(b, calls) := sampling_ticks n' (j + 1) gpio buf' in
      (b, furi_hal_gpio_read_g0 level :: calls)
  end.

(** [for (int j = 0; j < CAPTURED_BITMAP_SIZE*8; j++)] *)
Definition sampling_pass (gpio : Z -> bool) (buf : list Z) : list Z * list hal_call :=
  sampling_ticks (Z.to_nat (CAPTURED_BITMAP_SIZE * 8)) 0 gpio buf.

(** Lines 54-61: [idx++] visits [y*128+x]. *)
Definition draw_captured (buf : list Z) : list canvas_op :=
  flat_map (fun y =>
    flat_map (fun x =>
      if bitmap_get buf CAPTURED_BITMAP_SIZE (y * 128 + x)
      then [canvas_draw_dot x y] else [])
    (seqZ 0 128))
  (seqZ 0 64).

Definition render_view_direct_sampling (gpio : Z -> bool) (fresh : list Z)
    (app : ProtoViewApp)
  : outcome (ProtoViewApp * list hal_call * list canvas_op) :=
  let privdata := view_privdata app in
  if negb (direct_sampling_enabled app) && is_null (captured privdata) then
    Ret (app, [], help_screen)
  else
    let '(p, calls1) := alloc_captured fresh (captured privdata) in
    match p with
    | Live buf =>
        let '(buf', calls2) :=
          if direct_sampling_enabled app then sampling_pass gpio buf
          else (buf, []) in
        Ret ({| txrx := txrx app;
                direct_sampling_enabled := direct_sampling_enabled app;
                view_privdata := {| captured := Live buf';
                                    usec_per_pixel := usec_per_pixel privdata |} |},
             calls1 ++ calls2,
             draw_captured buf'
               ++ [canvas_set_font FontSecondary;
                   canvas_draw_usec_label 0 60 (usec_per_pixel privdata)])
    | _ => Fault      (* the bitmap is read through a stale pointer *)
    end.

Definition process_input_direct_sampling (app : ProtoViewApp) (input : InputEvent)
  : ProtoViewApp :=
  let privdata := view_privdata app in
  let enabled :=
    if type_eqb (type input) InputTypePress && key_eqb (key input) InputKeyOk
    then negb (direct_sampling_enabled app)
    else direct_sampling_enabled app in
  let usec :=
    if (key_eqb (key input) InputKeyUp || key_eqb (key input) InputKeyDown) &&
       (type_eqb (type input) InputTypePress || type_eqb (type input) InputTypeRepeat)
    then
      let change := if type_eqb (type input) InputTypePress
                    then USEC_PER_PIXEL_SMALL_CHANGE
                    else USEC_PER_PIXEL_LARGE_CHANGE in
      let change := if key_eqb (key input) InputKeyUp then u32 (- change) else change in
      let usec := u32 (usec_per_pixel privdata + change) in
      if usec <? USEC_PER_PIXEL_MIN then USEC_PER_PIXEL_MIN
      else if usec >? USEC_PER_PIXEL_MAX then USEC_PER_PIXEL_MAX
      else usec
    else usec_per_pixel privdata in
  {| txrx := txrx app;
     direct_sampling_enabled := enabled;
     view_privdata := {| captured := captured privdata; usec_per_pixel := usec |} |}.

Definition async_rx_active (app : ProtoViewApp) : bool :=
  is_rx (txrx_state (txrx app)) && negb (debug_timer_sampling (txrx app)).

Definition view_enter_direct_sampling (app : ProtoViewApp)
  : ProtoViewApp * list hal_call :=
  let privdata := view_privdata app in
  ({| txrx := txrx app;
      direct_sampling_enabled := direct_sampling_enabled app;
      view_privdata := {| captured := captured privdata;
                          usec_per_pixel := DEFAULT_USEC_PER_PIXEL |} |},
   if async_rx_active app
   then [furi_hal_subghz_stop_async_rx; furi_hal_subghz_rx; furi_hal_gpio_init_g0_input]
   else [raw_sampling_worker_stop]).

Definition view_exit_direct_sampling (app : ProtoViewApp)
  : outcome (ProtoViewApp * list hal_call) :=
  let privdata := view_privdata app in
  let! freed :=
    match captured privdata with
    | NullPtr => Ret (NullPtr, [])
    | Live _ => Ret (Dangling, [free])
    | Dangling => Fault          (* the block would be released twice *)
    end in
  Ret ({| txrx := txrx app;
          direct_sampling_enabled := false;
          view_privdata := {| captured := fst freed;
                              usec_per_pixel := usec_per_pixel privdata |} |},
       snd freed ++
       (if async_rx_active app
        then [furi_hal_subghz_start_async_rx]
        else [raw_sampling_worker_start])).

(** What happens while the view is shown: input events and redraws. *)
Inductive view_op :=
  | OpInput (input : InputEvent)
  | OpRender (gpio : Z -> bool) (fresh : list Z).

Definition run_op (op : view_op) (app : ProtoViewApp)
  : outcome (ProtoViewApp * list hal_call) :=
  match op with
  | OpInput input => Ret (process_input_direct_sampling app input, [])
  | OpRender gpio fresh =>
      let! r := render_view_direct_sampling gpio fresh app in
      Ret (fst (fst r), snd (fst r))
  end.

Fixpoint run_ops (ops : list view_op) (app : ProtoViewApp)
  : outcome (ProtoViewApp * list hal_call) :=
  match ops with
  | [] => Ret (app, [])
  | op :: ops' =>
      let! r := run_op op app in
      let! r' := run_ops ops' (fst r) in
      Ret (fst r', snd r ++ snd r')
  end.

(** The view after a series of input events. *)
Definition process_inputs (app : ProtoViewApp) (inputs : list InputEvent) : ProtoViewApp :=
  fold_left process_input_direct_sampling inputs app.

(** The block behind [captured], present or about to be allocated, has
    the size the view asks the allocator for. *)
Definition captured_block_sized (fresh : list Z) (p : bufptr) : Prop :=
  match p with
  | NullPtr => Z.of_nat (length fresh) = CAPTURED_BITMAP_SIZE
  | Live buf => Z.of_nat (length buf) = CAPTURED_BITMAP_SIZE
  | Dangling => False
  end.

(** The calls that hand the radio line from one reception mode to
    another. *)
Definition is_reception_call (c : hal_call) : bool :=
  match c with
  | furi_hal_subghz_stop_async_rx | furi_hal_subghz_rx | furi_hal_gpio_init_g0_input
  | raw_sampling_worker_stop | furi_hal_subghz_start_async_rx
  | raw_sampling_worker_start => true
  | malloc _ | free | furi_hal_gpio_read_g0 _ => false
  end.

Definition reception_calls (calls : list hal_call) : list hal_call :=
  List.filter is_reception_call calls.

Definition usec_of (app : ProtoViewApp) : Z := usec_per_pixel (view_privdata app).

Definition press (k : InputKey) : InputEvent := {| key := k; type := InputTypePress |}.
Definition repeated (k : InputKey) : InputEvent := {| key := k; type := InputTypeRepeat |}.

(** The step an up or down event of type [t] asks for. *)
Definition step_of (t : InputType) : Z :=
  if type_eqb t InputTypePress then USEC_PER_PIXEL_SMALL_CHANGE
  else USEC_PER_PIXEL_LARGE_CHANGE.

(** The read of tick [j]. *)
Definition read_at (gpio : Z -> bool) (j : Z) : hal_call :=
  furi_hal_gpio_read_g0 (gpio j).

End DirectSampling.

(** ** The build message view *)

Module BuildMessage.

(** Modelled from the spec: the declaration of the field set is
    missing.  Section 3: an ordered sequence of fields, each with a
    name, a semantic type, a current value and a bit width. *)
Inductive ProtoViewFieldType :=
  | FieldTypeUnsignedInt | FieldTypeSignedInt | FieldTypeBinary | FieldTypeChoice.

Record ProtoViewField := {
  field_name : string;
  field_type : ProtoViewFieldType;
  field_value : Z;
  field_len : Z
}.

Definition ProtoViewFieldSet := list ProtoViewField.

Definition numfields (fs : ProtoViewFieldSet) : Z := Z.of_nat (length fs).

(** Modelled from the spec: the body of [fieldset_new] is missing.
    Section 4.4: [new() -> empty FieldSet]. *)
Definition fieldset_new : ProtoViewFieldSet := [].

(** Modelled from the spec: the declaration of [ProtoViewDecoder] is
    missing.  Section 4.3: a name and the optional operations decode,
    get_fields and encode; an absent operation is a NULL function
    pointer.  [get_fields] fills the field set it is handed. *)
Record ProtoViewDecoder := {
  name : string;
  decode : option (list bool -> option ProtoViewFieldSet);
  get_fields : option (ProtoViewFieldSet -> ProtoViewFieldSet);
  encode : option (ProtoViewFieldSet -> list bool)
}.

Definition buildable (d : ProtoViewDecoder) : bool :=
  match get_fields d with Some _ => true | None => false end.

Record BuildViewPrivData := {
  decoder : option ProtoViewDecoder;  (* Decoder we are using to create a message. *)
  cur_decoder : Z;                    (* uint32_t; used when decoder is NULL. *)
  fieldset : option ProtoViewFieldSet;(* The fields to populate. *)
  cur_field : Z                       (* uint32_t *)
}.

Definition set_cur_decoder (privdata : BuildViewPrivData) (cur : Z) : BuildViewPrivData :=
  {| decoder := decoder privdata; cur_decoder := cur;
     fieldset := fieldset privdata; cur_field := cur_field privdata |}.

Section Registry.

(** [extern ProtoViewDecoder *Decoders[]]: the array as it lies in
    memory, NULL entries included. *)
Variable Decoders : list (option ProtoViewDecoder).

(** [Decoders[i]]; an index past the array is not a read the program
    may make. *)
Definition Decoders_at (i : Z) : outcome (option ProtoViewDecoder) :=
  match Decoders !! Z.to_nat i with
  | Some p => Ret p
  | None => Fault
  end.

(** [Decoders[i]->get_fields == NULL] *)
Definition get_fields_is_null (i : Z) : outcome bool :=
  let! p := Decoders_at i in
  match p with
  | Some d => Ret (negb (buildable d))
  | None => Fault
  end.

Fixpoint select_next_loop (fuel : nat) (cur : Z) : outcome Z :=
  match fuel with
  | O => OutOfFuel
  | S fuel' =>
      let cur := u32 (cur + 1) in
      let! p := Decoders_at cur in
      let cur := match p with None => 0 | Some _ => cur end in
      let! again := get_fields_is_null cur in
      if again then select_next_loop fuel' cur else Ret cur
  end.

Definition select_next_decoder (fuel : nat) (privdata : BuildViewPrivData)
  : outcome BuildViewPrivData :=
  let! cur := select_next_loop fuel (cur_decoder privdata) in
  Ret (set_cur_decoder privdata cur).

(** [while(Decoders[cur]) cur++] *)
Fixpoint seek_terminator (fuel : nat) (cur : Z) : outcome Z :=
  match fuel with
  | O => OutOfFuel
  | S fuel' =>
      let! p := Decoders_at cur in
      match p with
      | Some _ => seek_terminator fuel' (u32 (cur + 1))
      | None => Ret cur
      end
  end.

(** [gas] bounds each run of the inner loop, [fuel] the outer one. *)
Fixpoint select_prev_loop (gas fuel : nat) (cur : Z) : outcome Z :=
  match fuel with
  | O => OutOfFuel
  | S fuel' =>
      let! cur := (if cur =? 0 then seek_terminator gas cur else Ret cur) in
      let cur := u32 (cur - 1) in
      let! again := get_fields_is_null cur in
      if again then select_prev_loop gas fuel' cur else Ret cur
  end.

Definition select_prev_decoder (fuel : nat) (privdata : BuildViewPrivData)
  : outcome BuildViewPrivData :=
  let! cur := select_prev_loop fuel fuel (cur_decoder privdata) in
  Ret (set_cur_decoder privdata cur).

Definition render_view_select_decoder (fuel : nat) (privdata : BuildViewPrivData)
  : outcome (BuildViewPrivData * list canvas_op) :=
  let! seek := get_fields_is_null (cur_decoder privdata) in
  let! privdata := (if seek then select_next_decoder fuel privdata else Ret privdata) in
  let! p := Decoders_at (cur_decoder privdata) in
  match p with
  | Some d =>
      Ret (privdata,
           [ canvas_set_font FontPrimary;
             canvas_draw_str 0 9 "Signal builder";
             canvas_set_font FontSecondary;
             canvas_draw_str 0 19 "up/down: select, ok: choose";
             canvas_set_font FontPrimary;
             canvas_draw_str 0 9 "Signal builder";
             canvas_draw_str_aligned 64 40 (name d) ]%string)
  | None => Fault
  end.

(** The title is ["%s field %d/%d"], both numbers cast to [int]. *)
Definition render_view_set_fields (privdata : BuildViewPrivData)
  : outcome (list canvas_op) :=
  match decoder privdata, fieldset privdata with
  | Some d, Some fs =>
      Ret [ canvas_set_font FontPrimary;
            canvas_draw_field_title 0 9 (name d)
              (int_cast (cur_field privdata)) (int_cast (numfields fs));
            canvas_set_font FontSecondary;
            canvas_draw_str 0 19 "up/down: next field, ok: edit";
            canvas_draw_str 0 62 "Long press ok: create signal" ]%string
  | _, _ => Fault
  end.

Definition render_view_build_message (fuel : nat) (privdata : BuildViewPrivData)
  : outcome (BuildViewPrivData * list canvas_op) :=
  match decoder privdata with
  | Some _ => let! ops := render_view_set_fields privdata in Ret (privdata, ops)
  | None => render_view_select_decoder fuel privdata
  end.

(** Handle input for the decoder selection. *)
Definition process_input_select_decoder (fuel : nat) (privdata : BuildViewPrivData)
    (input : InputEvent) : outcome BuildViewPrivData :=
  if type_eqb (type input) InputTypeShort then
    if key_eqb (key input) InputKeyOk then
      let! p := Decoders_at (cur_decoder privdata) in
      let fs := fieldset_new in
      match p with
      | Some d =>
          match get_fields d with
          | Some fill =>
              Ret {| decoder := Some d; cur_decoder := cur_decoder privdata;
                     fieldset := Some (fill fs); cur_field := cur_field privdata |}
          | None => Fault
          end
      | None => Fault
      end
    else if key_eqb (key input) InputKeyDown then select_next_decoder fuel privdata
    else if key_eqb (key input) InputKeyUp then select_prev_decoder fuel privdata
    else Ret privdata
  else Ret privdata.

(** Handle input for fields editing mode: both arguments are unused. *)
Definition process_input_set_fields (privdata : BuildViewPrivData) (input : InputEvent)
  : outcome BuildViewPrivData :=
  Ret privdata.

Definition process_input_build_message (fuel : nat) (privdata : BuildViewPrivData)
    (input : InputEvent) : outcome BuildViewPrivData :=
  match decoder privdata with
  | Some _ => process_input_set_fields privdata input
  | None => process_input_select_decoder fuel privdata input
  end.

(** [select_next_decoder] called [k] times in a row. *)
Fixpoint select_next_times (fuel : nat) (k : nat) (privdata : BuildViewPrivData)
  : outcome BuildViewPrivData :=
  match k with
  | O => Ret privdata
  | S k' =>
      let! privdata := select_next_decoder fuel privdata in
      select_next_times fuel k' privdata
  end.

End Registry.

(** The registry behind the array: the decoders before the first NULL. *)
Definition registry_of (regs : list ProtoViewDecoder) (rest : list (option ProtoViewDecoder))
  : list (option ProtoViewDecoder) :=
  (Some <$> regs) ++ None :: rest.

(** Number of decoders that can build a message. *)
Definition buildable_count (regs : list ProtoViewDecoder) : nat :=
  length (filter (fun d => buildable d = true) regs).

Definition buildable_at (regs : list ProtoViewDecoder) (i : nat) : bool :=
  match regs !! i with Some d => buildable d | None => false end.

Definition short_press (k : InputKey) : InputEvent := {| key := k; type := InputTypeShort |}.
Definition long_press (k : InputKey) : InputEvent := {| key := k; type := InputTypeLong |}.

End BuildMessage.

(** ** Cyclic search over a finite index range

    The two traversal loops of the build view walk the indices
    [0 .. n-1] cyclically until they meet one that satisfies a test.
    This module describes that walk on plain naturals; the loops are
    related to it further down. *)

Module Cyclic.
Local Open Scope nat_scope.

Definition wrap_succ (n i : nat) : nat := if S i =? n then 0 else S i.
Definition wrap_pred (n i : nat) : nat := if i =? 0 then n - 1 else i - 1.

(** Walk with [step] until [cap] holds, for at most [fuel] steps. *)
Fixpoint seek (step : nat -> nat) (cap : nat -> bool) (fuel i : nat) : option nat :=
  match fuel with
  | O => None
  | S fuel' =>
      let i' := step i in
      if cap i' then Some i' else seek step cap fuel' i'
  end.

Fixpoint seek_iter (step : nat -> nat) (cap : nat -> bool) (fuel k i : nat) : option nat :=
  match k with
  | O => Some i
  | S k' =>
      match seek step cap fuel i with
      | Some i' => seek_iter step cap fuel k' i'
      | None => None
      end
  end.

(** Number of indices below [i] that satisfy [cap]. *)
Fixpoint rank (cap : nat -> bool) (i : nat) : nat :=
  match i with
  | O => 0
  | S j => rank cap j + (if cap j then 1 else 0)
  end.

(** Steps still to go, after the first, from [i] up (down) to [c]. *)
Definition dist_up (n c i : nat) : nat := if i <? c then c - i - 1 else n - 1 - i + c.
Definition dist_down (n c i : nat) : nat := if c <? i then i - c - 1 else i + n - 1 - c.

Definition none_between (cap : nat -> bool) (a b : nat) : Prop :=
  forall j, a < j < b -> cap j = false.
Definition none_below (cap : nat -> bool) (b : nat) : Prop :=
  forall j, j < b -> cap j = false.

(** An index found by the walk, as the machine holds it. *)
Definition lift (o : option nat) : outcome Z :=
  match o with
  | Some r => Ret (Z.of_nat r)
  | None => OutOfFuel
  end.

End Cyclic.
(** ** Sample data

    A small registry, a builder session and a radio state on which the
    statements below are exercised. *)

Module Samples.
Import Bitmap DirectSampling BuildMessage.

Definition address_field : ProtoViewField :=
  {| field_name := "address"; field_type := FieldTypeUnsignedInt;
     field_value := 0; field_len := 8 |}.

Definition command_field : ProtoViewField :=
  {| field_name := "command"; field_type := FieldTypeUnsignedInt;
     field_value := 0; field_len := 8 |}.

(** One bit per field: the parity of its value. *)
Definition parity_bits (fs : ProtoViewFieldSet) : list bool :=
  map (fun f => Z.odd (field_value f)) fs.

Definition listen_decoder : ProtoViewDecoder :=
  {| name := "listen"; decode := Some (fun _ => None);
     get_fields := None; encode := None |}.

Definition remote_decoder : ProtoViewDecoder :=
  {| name := "remote"; decode := None;
     get_fields := Some (fun fs => fs ++ [address_field; command_field]);
     encode := Some parity_bits |}.

Definition keyfob_decoder : ProtoViewDecoder :=
  {| name := "keyfob"; decode := None;
     get_fields := Some (fun fs => fs ++ [address_field]);
     encode := Some parity_bits |}.

Definition sample_regs : list ProtoViewDecoder :=
  [listen_decoder; remote_decoder; listen_decoder; keyfob_decoder].

Definition sample_Decoders : list (option ProtoViewDecoder) :=
  registry_of sample_regs [].

(** Selecting a decoder, the browsed index on [cur]. *)
Definition browsing (cur : Z) : BuildViewPrivData :=
  {| decoder := None; cur_decoder := cur; fieldset := None; cur_field := 0 |}.

(** Editing the fields of [remote_decoder]. *)
Definition editing : BuildViewPrivData :=
  {| decoder := Some remote_decoder; cur_decoder := 1;
     fieldset := Some [address_field; command_field]; cur_field := 0 |}.

Definition radio_rx : ProtoViewTxRx :=
  {| txrx_state := TxRxStateRx; debug_timer_sampling := false |}.

(** The view with sampling on and nothing captured yet. *)
Definition sampling_app : ProtoViewApp :=
  {| txrx := radio_rx; direct_sampling_enabled := true;
     view_privdata := {| captured := NullPtr; usec_per_pixel := 50 |} |}.

(** The view holding a captured screen. *)
Definition captured_app (buf : list Z) : ProtoViewApp :=
  {| txrx := radio_rx; direct_sampling_enabled := true;
     view_privdata := {| captured := Live buf; usec_per_pixel := 50 |} |}.

Definition blank_block : list Z := repeat 0 1024.
Definition stale_block : list Z := repeat 255 1024.

(** A square wave on the line: high on odd ticks. *)
Definition square_wave (j : Z) : bool := Z.odd j.

End Samples.

(** ** A stay in the build message view *)

Module BuildSession.
Import BuildMessage.

(** Called on exit for cleanup: the field set handed to
    [fieldset_free], if there is one. *)
Definition view_exit_build_message (privdata : BuildViewPrivData)
  : option ProtoViewFieldSet :=
  fieldset privdata.

(** What happens while the view is shown. *)
Inductive build_op :=
  | BuildInput (input : InputEvent)
  | BuildRender.

Definition run_build_op (Decoders : list (option ProtoViewDecoder)) (fuel : nat)
    (op : build_op) (privdata : BuildViewPrivData) : outcome BuildViewPrivData :=
  match op with
  | BuildInput input => process_input_build_message Decoders fuel privdata input
  | BuildRender =>
      let! r := render_view_build_message Decoders fuel privdata in
      Ret (fst r)
  end.

Fixpoint run_build_ops (Decoders : list (option ProtoViewDecoder)) (fuel : nat)
    (ops : list build_op) (privdata : BuildViewPrivData) : outcome BuildViewPrivData :=
  match ops with
  | [] => Ret privdata
  | op :: ops' =>
      let! privdata := run_build_op Decoders fuel op privdata in
      run_build_ops Decoders fuel ops' privdata
  end.

(** The private data of a view just entered: all zero. *)
Definition fresh_privdata : BuildViewPrivData :=
  {| decoder := None; cur_decoder := 0; fieldset := None; cur_field := 0 |}.

(** Selecting, with the browsed index on a decoder that can build. *)
Definition selecting_ok (regs : list ProtoViewDecoder) (privdata : BuildViewPrivData) : Prop :=
  decoder privdata = None /\ fieldset privdata = None /\
  exists i : nat, (i < length regs)%nat /\ cur_decoder privdata = Z.of_nat i /\
                  buildable_at regs i = true.

(** Editing the field set that a decoder of the registry filled. *)
Definition editing_ok (regs : list ProtoViewDecoder) (privdata : BuildViewPrivData) : Prop :=
  exists d fill, decoder privdata = Some d /\ In d regs /\
                 get_fields d = Some fill /\
                 fieldset privdata = Some (fill fieldset_new).

Definition session_ok (regs : list ProtoViewDecoder) (privdata : BuildViewPrivData) : Prop :=
  selecting_ok regs privdata \/ editing_ok regs privdata.

(** What [render_view_select_decoder] draws for the decoder [name]. *)
Definition selection_screen (name : string) : list canvas_op :=
  [ canvas_set_font FontPrimary;
    canvas_draw_str 0 9 "Signal builder";
    canvas_set_font FontSecondary;
    canvas_draw_str 0 19 "up/down: select, ok: choose";
    canvas_set_font FontPrimary;
    canvas_draw_str 0 9 "Signal builder";
    canvas_draw_str_aligned 64 40 name ]%string.

End BuildSession.

(** ** A stay in the direct sampling view *)

Module DirectSamplingMore.
Import Bitmap DirectSampling.

(** Lines 54-61 as written, with the running index [idx]: [n] pixels of
    row [y] from column [x] on. *)
Fixpoint draw_row (n : nat) (x y idx : Z) (buf : list Z) : list canvas_op * Z :=
  match n with
  | O => ([], idx)
  | S n' =>
      let level := bitmap_get buf CAPTURED_BITMAP_SIZE idx in
      let '(ops, idx') := draw_row n' (x + 1) y (idx + 1) buf in
      ((if level then [canvas_draw_dot x y] else []) ++ ops, idx')
  end.

(** [n] rows from row [y] on. *)
Fixpoint draw_rows (n : nat) (y idx : Z) (buf : list Z) : list canvas_op :=
  match n with
  | O => []
  | S n' =>
      let '(ops, idx') := draw_row 128 0 y idx buf in
      ops ++ draw_rows n' (y + 1) idx' buf
  end.

Definition draw_captured_idx (buf : list Z) : list canvas_op :=
  draw_rows 64 0 0 buf.

(** The dot of pixel [(x, y)], if its bit is set. *)
Definition dot_if (buf : list Z) (y x : Z) : list canvas_op :=
  if bitmap_get buf CAPTURED_BITMAP_SIZE (y * 128 + x) then [canvas_draw_dot x y] else [].

Definition is_malloc (c : hal_call) : bool :=
  match c with malloc _ => true | _ => false end.

Definition is_free (c : hal_call) : bool :=
  match c with free => true | _ => false end.

Definition count_calls (f : hal_call -> bool) (calls : list hal_call) : nat :=
  length (List.filter f calls).

(** An input event that toggles sampling. *)
Definition is_ok_press (input : InputEvent) : bool :=
  type_eqb (type input) InputTypePress && key_eqb (key input) InputKeyOk.

Definition toggles_sampling (op : view_op) : bool :=
  match op with
  | OpInput input => is_ok_press input
  | OpRender _ _ => false
  end.

(** Entering the view, staying in it and leaving it. *)
Definition view_session (app : ProtoViewApp) (ops : list view_op)
  : outcome (ProtoViewApp * list hal_call) :=
  let entered := view_enter_direct_sampling app in
  let! stayed := run_ops ops (fst entered) in
  let! left := view_exit_direct_sampling (fst stayed) in
  Ret (fst left, snd entered ++ snd stayed ++ snd left).

Definition is_live (p : bufptr) : bool :=
  match p with Live _ => true | _ => false end.

(** A pacing value within bounds and on a multiple of 5. *)
Definition on_grid (u : Z) : Prop :=
  USEC_PER_PIXEL_MIN <= u <= USEC_PER_PIXEL_MAX /\ u mod 5 = 0.

End DirectSamplingMore.

(** ** The asteroids game: arrays, timers and the shape generator

    The game keeps positions and velocities as C floats.  They are
    left abstract here: a type with the operations the code applies to
    it, about which nothing is assumed.  What is studied is the part of
    the game that runs on integers and arrays. *)

Class FloatOps := {
  float : Type;
  fadd : float -> float -> float;
  fsub : float -> float -> float;
  fmul : float -> float -> float;
  fneg : float -> float;
  fsin : float -> float;
  fcos : float -> float;
  flt : float -> float -> bool;      (* a < b *)
  fge : float -> float -> bool;      (* a >= b *)
  of_int : Z -> float                (* conversion of an integer *)
}.

Module Asteroids.

Definition SCREEN_XRES : Z := 128.
Definition SCREEN_YRES : Z := 64.
Definition MAXBUL : Z := 10.   (* Max bullets on the screen. *)
Definition MAXAST : Z := 8.    (* Max asteroids on the screen. *)

(** This is an 8 bit LFSR, on an [unsigned char]. *)
Definition lfsr_next (prev : Z) : Z :=
  let lsb := Z.land prev 1 in
  let prev := u8 (Z.shiftr prev 1) in
  let prev := if lsb =? 1 then u8 (Z.lxor prev 199) else prev in   (* 0b11000111 *)
  u8 (Z.lxor prev (Z.shiftl prev 7)).

(** [lfsr_next] applied [k] times, as the loop of [draw_asteroid] does
    from the shape seed. *)
Fixpoint lfsr_iter (k : nat) (r : Z) : Z :=
  match k with
  | O => r
  | S k' => lfsr_iter k' (lfsr_next r)
  end.

(** An element of a C array, and a store into it; an index outside the
    array is not an access the program may make. *)
Definition array_get {A} (arr : list A) (i : Z) : outcome A :=
  if i <? 0 then Fault
  else match arr !! Z.to_nat i with
       | Some a => Ret a
       | None => Fault
       end.

Definition array_set {A} (arr : list A) (i : Z) (a : A) : outcome (list A) :=
  if (0 <=? i) && (i <? Z.of_nat (length arr)) then Ret (<[Z.to_nat i := a]> arr)
  else Fault.

(** The body shared by [remove_bullet] and [remove_asteroid]:
    [int n = --num; if (n && id != n) arr[id] = arr[n];] *)
Definition remove_at {A} (arr : list A) (num id : Z) : outcome (list A * Z) :=
  let n := num - 1 in
  if negb (n =? 0) && negb (id =? n) then
    let! top := array_get arr n in
    let! arr := array_set arr id top in
    Ret (arr, n)
  else Ret (arr, n).

Section Game.
Context {F : FloatOps}.

Record Ship := {
  ship_x : float; ship_y : float;
  ship_vx : float; ship_vy : float;
  ship_rot : float
}.

Record Bullet := {
  bul_x : float; bul_y : float;
  bul_vx : float; bul_vy : float;
  ttl : Z                              (* uint32_t; time to live, in ticks *)
}.

Record Asteroid := {
  ast_x : float; ast_y : float;
  ast_vx : float; ast_vy : float;
  ast_rot : float; ast_rot_speed : float;
  ast_size : float;
  shape_seed : Z                       (* uint8_t *)
}.

Record AsteroidsApp := {
  running : Z;                         (* int *)
  ticks : Z;                           (* uint32_t *)
  ship : Ship;
  bullets : list Bullet;               (* struct Bullet bullets[MAXBUL] *)
  bullets_num : Z;                     (* int *)
  asteroids : list Asteroid;           (* Asteroid asteroids[MAXAST] *)
  asteroids_num : Z;                   (* int *)
  pressed : InputKey -> Z;             (* uint32_t pressed[InputKeyMAX] *)
  fire : bool
}.

Definition set_bullets (app : AsteroidsApp) (arr : list Bullet) (num : Z) : AsteroidsApp :=
  {| running := running app; ticks := ticks app; ship := ship app;
     bullets := arr; bullets_num := num;
     asteroids := asteroids app; asteroids_num := asteroids_num app;
     pressed := pressed app; fire := fire app |}.

Definition set_asteroids (app : AsteroidsApp) (arr : list Asteroid) (num : Z) : AsteroidsApp :=
  {| running := running app; ticks := ticks app; ship := ship app;
     bullets := bullets app; bullets_num := bullets_num app;
     asteroids := arr; asteroids_num := num;
     pressed := pressed app; fire := fire app |}.

(** Given the current position, update it according to the velocity and
    wrap it back to the other side if the object went over the screen. *)
Definition update_pos_by_velocity (x y vx vy : float) : float * float :=
  let x := fadd x vx in
  let y := fadd y vy in
  let x := if fge x (of_int SCREEN_XRES) then of_int 0
           else if flt x (of_int 0) then of_int (SCREEN_XRES - 1) else x in
  let y := if fge y (of_int SCREEN_YRES) then of_int 0
           else if flt y (of_int 0) then of_int (SCREEN_YRES - 1) else y in
  (x, y).

Definition detect_collision (x1 y1 r1 x2 y2 r2 factor : float) : bool :=
  let dx := fmul (fsub x1 x2) factor in
  let dy := fmul (fsub y1 y2) factor in
  let rsum := fadd r1 r2 in
  flt (fadd (fmul dx dx) (fmul dy dy)) (fmul rsum rsum).

(** The test of the collision loop: asteroid [a] against bullet [b]. *)
Definition hits (a : Asteroid) (b : Bullet) : bool :=
  detect_collision (ast_x a) (ast_y a) (ast_size a) (bul_x b) (bul_y b)
                   (of_int 1) (of_int 1).

(** The bullet [ship_fire_bullet] writes. *)
Definition new_bullet (s : Ship) : Bullet :=
  let vx := fneg (fsin (ship_rot s)) in
  let vy := fcos (ship_rot s) in
  {| bul_x := fadd (ship_x s) (fmul vx (of_int 5));
     bul_y := fadd (ship_y s) (fmul vy (of_int 5));
     bul_vx := fadd (fmul vx (of_int 2)) (ship_vx s);
     bul_vy := fadd (fmul vy (of_int 2)) (ship_vy s);
     ttl := 50 |}.

(** Create a new bullet headed in the same direction of the ship. *)
Definition ship_fire_bullet (app : AsteroidsApp) : outcome AsteroidsApp :=
  if bullets_num app =? MAXBUL then Ret app
  else
    let! arr := array_set (bullets app) (bullets_num app) (new_bullet (ship app)) in
    Ret (set_bullets app arr (bullets_num app + 1)).

(** Remove the specified bullet by id (index in the array). *)
Definition remove_bullet (app : AsteroidsApp) (bid : Z) : outcome AsteroidsApp :=
  let! r := remove_at (bullets app) (bullets_num app) bid in
  Ret (set_bullets app (fst r) (snd r)).

(** Remove the specified asteroid by id (index in the array). *)
Definition remove_asteroid (app : AsteroidsApp) (id : Z) : outcome AsteroidsApp :=
  let! r := remove_at (asteroids app) (asteroids_num app) id in
  Ret (set_asteroids app (fst r) (snd r)).

(** One bullet moved and aged by a tick. *)
Definition aged (b : Bullet) : Bullet :=
  let '(x, y) := update_pos_by_velocity (bul_x b) (bul_y b) (bul_vx b) (bul_vy b) in
  {| bul_x := x; bul_y := y; bul_vx := bul_vx b; bul_vy := bul_vy b;
     ttl := u32 (ttl b - 1) |}.

(** [game_tick], "Update bullets position": the loop from index [j] on.
    A removal is followed by [j--], so that the index is processed
    again. *)
Fixpoint update_bullets (fuel : nat) (j : Z) (app : AsteroidsApp) : outcome AsteroidsApp :=
  match fuel with
  | O => OutOfFuel
  | S fuel' =>
      if j <? bullets_num app then
        let! b := array_get (bullets app) j in
        let! arr := array_set (bullets app) j (aged b) in
        let app := set_bullets app arr (bullets_num app) in
        if ttl (aged b) =? 0 then
          let! app := remove_bullet app j in
          update_bullets fuel' (j - 1 + 1) app
        else update_bullets fuel' (j + 1) app
      else Ret app
  end.

(** The inner loop of the collision pass: the first asteroid, from
    index [i] on and among [n] more, that bullet [b] hits. *)
Fixpoint first_hit (n : nat) (i : Z) (arr : list Asteroid) (b : Bullet) : outcome (option Z) :=
  match n with
  | O => Ret None
  | S n' =>
      let! a := array_get arr i in
      if hits a b then Ret (Some i) else first_hit n' (i + 1) arr b
  end.

(** [game_tick], "Detect collision between bullet and asteroid": the
    loop from bullet index [j] on. *)
Fixpoint collide (fuel : nat) (j : Z) (app : AsteroidsApp) : outcome AsteroidsApp :=
  match fuel with
  | O => OutOfFuel
  | S fuel' =>
      if j <? bullets_num app then
        let! b := array_get (bullets app) j in
        let! hit := first_hit (Z.to_nat (asteroids_num app)) 0 (asteroids app) b in
        match hit with
        | Some i =>
            let! app := remove_asteroid app i in
            let! app := remove_bullet app j in
            collide fuel' (j - 1 + 1) app
        | None => collide fuel' (j + 1) app
        end
      else Ret app
  end.

(** Handle keys interaction.  [now] is what [furi_get_tick] returns. *)
Definition asteroids_update_keypress_state (now : Z) (app : AsteroidsApp) (input : InputEvent)
  : AsteroidsApp :=
  let store (v : Z) (fire' : bool) :=
    {| running := running app; ticks := ticks app; ship := ship app;
       bullets := bullets app; bullets_num := bullets_num app;
       asteroids := asteroids app; asteroids_num := asteroids_num app;
       pressed := fun k => if key_eqb k (key input) then v else pressed app k;
       fire := fire' |} in
  if type_eqb (type input) InputTypePress then store now (fire app)
  else if type_eqb (type input) InputTypeRelease then
    let dur := u32 (now - pressed app (key input)) in
    store 0 (if (dur <? 200) && key_eqb (key input) InputKeyOk then true else fire app)
  else app.

(** The bullets (asteroids) in use: the first [bullets_num] entries. *)
Definition live_bullets (app : AsteroidsApp) : list Bullet :=
  take (Z.to_nat (bullets_num app)) (bullets app).

Definition live_asteroids (app : AsteroidsApp) : list Asteroid :=
  take (Z.to_nat (asteroids_num app)) (asteroids app).

(** Everything but the bullets is the same in [app] and [app']. *)
Definition same_but_bullets (app app' : AsteroidsApp) : Prop :=
  running app' = running app /\ ticks app' = ticks app /\ ship app' = ship app /\
  asteroids app' = asteroids app /\ asteroids_num app' = asteroids_num app /\
  pressed app' = pressed app /\ fire app' = fire app.


(** No bullet of [bs] is inside an asteroid of [asts]. *)
Definition no_hit (bs : list Bullet) (asts : list Asteroid) : Prop :=
  forall b a, b ∈ bs -> a ∈ asts -> hits a b = false.

(** The counts fit the arrays. *)
Definition arrays_ok (app : AsteroidsApp) : Prop :=
  0 <= bullets_num app <= Z.of_nat (length (bullets app)) /\
  0 <= asteroids_num app <= Z.of_nat (length (asteroids app)).

End Game.

End Asteroids.

(** ** Sample data for the game

    Integers in place of floats, for computing examples; sine and
    cosine are any functions. *)

Module AsteroidSamples.
Import Asteroids.

#[export] Instance Zfloat : FloatOps := {|
  float := Z;
  fadd := Z.add; fsub := Z.sub; fmul := Z.mul;
  fneg := Z.opp;
  fsin := fun _ => 0; fcos := fun _ => 1;
  flt := Z.ltb; fge := Z.geb;
  of_int := fun z => z
|}.

Definition bullet_at (x y t : Z) : Bullet :=
  {| bul_x := x; bul_y := y; bul_vx := 1; bul_vy := 0; ttl := t |}.

Definition rock_at (x y size : Z) : Asteroid :=
  {| ast_x := x; ast_y := y; ast_vx := 0; ast_vy := 0; ast_rot := 0;
     ast_rot_speed := 0; ast_size := size; shape_seed := 1 |}.

Definition idle_ship : Ship :=
  {| ship_x := 64; ship_y := 32; ship_vx := 0; ship_vy := 0; ship_rot := 0 |}.

(** Three bullets in flight, one of them on its last tick and one
    inside the first of two rocks. *)
Definition game : AsteroidsApp :=
  {| running := 1; ticks := 7; ship := idle_ship;
     bullets := [bullet_at 10 10 1; bullet_at 100 50 30; bullet_at 20 20 9]
                  ++ repeat (bullet_at 0 0 0) 7;
     bullets_num := 3;
     asteroids := [rock_at 101 50 6; rock_at 60 5 4] ++ repeat (rock_at 0 0 0) 6;
     asteroids_num := 2;
     pressed := fun _ => 0;
     fire := false |}.

End AsteroidSamples.

Module BitmapFacts.
Import Bitmap.

Lemma land_mask_testbit (x n : Z) :
  0 <= n -> negb (Z.land x (Z.shiftl 1 n) =? 0) = Z.testbit x n.
Proof.
  intros Hn. rewrite Z.shiftl_1_l.
  destruct (Z.testbit x n) eqn:Hb.
  - apply negb_true_iff, Z.eqb_neq. intros H0.
    assert (Ht : Z.testbit (Z.land x (2 ^ n)) n = true).
    { rewrite Z.land_spec, Hb, Z.pow2_bits_true by lia. reflexivity. }
    rewrite H0, Z.bits_0 in Ht. discriminate.
  - apply negb_false_iff, Z.eqb_eq. apply Z.bits_inj'. intros m Hm.
    rewrite Z.land_spec, Z.bits_0, Z.pow2_bits_eqb by lia.
    destruct (Z.eqb_spec n m) as [->|]; [now rewrite Hb | apply andb_false_r].
Qed.

Lemma u8_testbit (x p : Z) : 0 <= p < 8 -> Z.testbit (u8 x) p = Z.testbit x p.
Proof. intros Hp. unfold u8. apply Z.mod_pow2_bits_low. lia. Qed.

Lemma set_bit_testbit (old bit p : Z) (val : bool) :
  0 <= bit < 8 -> 0 <= p < 8 ->
  Z.testbit (u8 (if val then Z.lor old (Z.shiftl 1 bit)
                 else Z.land old (Z.lnot (Z.shiftl 1 bit)))) p
  = if p =? bit then val else Z.testbit old p.
Proof.
  intros Hbit Hp. rewrite u8_testbit by lia. rewrite Z.shiftl_1_l.
  destruct val.
  - rewrite Z.lor_spec, Z.pow2_bits_eqb by lia.
    rewrite (Z.eqb_sym bit p). destruct (p =? bit); [apply orb_true_r | apply orb_false_r].
  - rewrite Z.land_spec, Z.lnot_spec, Z.pow2_bits_eqb by lia.
    rewrite (Z.eqb_sym bit p). destruct (p =? bit); [apply andb_false_r | apply andb_true_r].
Qed.

Lemma valid_index (blen i : Z) :
  0 <= i < blen * 8 -> (0 <=? i) && (i <? blen * 8) = true.
Proof. intros H. apply andb_true_iff. split; [apply Z.leb_le | apply Z.ltb_lt]; lia. Qed.

Lemma bitmap_set_length (b : list Z) (blen i : Z) (v : bool) :
  length (bitmap_set b blen i v) = length b.
Proof.
  unfold bitmap_set. destruct ((0 <=? i) && (i <? blen * 8)); [|reflexivity].
  apply length_insert.
Qed.

Lemma byte_at_insert_eq (b : list Z) (k x : Z) :
  0 <= k < Z.of_nat (length b) -> byte_at (<[Z.to_nat k := x]> b) k = x.
Proof.
  intros Hk. unfold byte_at. rewrite list_lookup_insert_eq by lia. reflexivity.
Qed.

Lemma byte_at_insert_ne (b : list Z) (k k' x : Z) :
  0 <= k -> 0 <= k' -> k <> k' -> byte_at (<[Z.to_nat k := x]> b) k' = byte_at b k'.
Proof.
  intros Hk Hk' Hne. unfold byte_at. rewrite list_lookup_insert_ne by lia. reflexivity.
Qed.

(** Reading any valid bit after a write: the written bit holds the
    written level, every other bit keeps its value. *)
Lemma bitmap_get_set (b : list Z) (blen i j : Z) (v : bool) :
  Z.of_nat (length b) = blen ->
  0 <= i < blen * 8 -> 0 <= j < blen * 8 ->
  bitmap_get (bitmap_set b blen i v) blen j
  = if j =? i then v else bitmap_get b blen j.
Proof.
  intros Hlen Hi Hj. unfold bitmap_get, bitmap_set.
  rewrite (valid_index blen i Hi), (valid_index blen j Hj).
  assert (Hib : 0 <= i / 8 < blen) by (split; [apply Z.div_pos | apply Z.div_lt_upper_bound]; lia).
  assert (Hjb : 0 <= j / 8 < blen) by (split; [apply Z.div_pos | apply Z.div_lt_upper_bound]; lia).
  assert (Him : 0 <= i mod 8 < 8) by (apply Z.mod_pos_bound; lia).
  assert (Hjm : 0 <= j mod 8 < 8) by (apply Z.mod_pos_bound; lia).
  rewrite !land_mask_testbit by lia.
  destruct (Z.eq_dec (j / 8) (i / 8)) as [Heq|Hne].
  - rewrite Heq, byte_at_insert_eq by lia.
    rewrite set_bit_testbit by lia.
    assert (Hiff : (j mod 8 =? i mod 8) = (j =? i)).
    { pose proof (Z.div_mod i 8 ltac:(lia)). pose proof (Z.div_mod j 8 ltac:(lia)).
      destruct (Z.eqb_spec (j mod 8) (i mod 8)), (Z.eqb_spec j i); try reflexivity; lia. }
    rewrite Hiff. reflexivity.
  - rewrite byte_at_insert_ne by lia.
    destruct (Z.eqb_spec j i) as [->|]; [contradiction | reflexivity].
Qed.

(** C1: for a buffer of capacity [C] bytes, every valid bit index [i]
    and every level [v], reading bit [i] after writing [v] to it gives
    [v], and every other valid bit reads as it did before the write; the
    capacity is unchanged. *)
Theorem bitmap_set_get_roundtrip (buf : list Z) (C i : Z) (v : bool) :
  Z.of_nat (length buf) = C ->
  0 <= i < C * 8 ->
  bitmap_get (bitmap_set buf C i v) C i = v /\
  (forall j, 0 <= j < C * 8 -> j <> i ->
     bitmap_get (bitmap_set buf C i v) C j = bitmap_get buf C j) /\
  length (bitmap_set buf C i v) = length buf.
Proof.
  intros Hlen Hi. split; [|split].
  - rewrite bitmap_get_set by assumption. rewrite Z.eqb_refl. reflexivity.
  - intros j Hj Hne. rewrite bitmap_get_set by assumption.
    destruct (Z.eqb_spec j i); [contradiction | reflexivity].
  - apply bitmap_set_length.
Qed.

Lemma bitmap_set_get_roundtrip_witness :
  bitmap_get (bitmap_set [0; 255] 2 9 false) 2 9 = false /\
  (forall j, 0 <= j < 2 * 8 -> j <> 9 ->
     bitmap_get (bitmap_set [0; 255] 2 9 false) 2 j = bitmap_get [0; 255] 2 j) /\
  length (bitmap_set [0; 255] 2 9 false) = length [0; 255].
Proof.
  apply (bitmap_set_get_roundtrip [0; 255] 2 9 false); [reflexivity | lia].
Defined.

(** The bytes of the sample buffer after bit 9 is cleared and bit 3 is
    set. *)
Example bitmap_set_bytes :
  bitmap_set (bitmap_set [0; 255] 2 9 false) 2 3 true = [8; 253].
Proof. reflexivity. Qed.

(** A write outside the buffer is rejected. *)
Example bitmap_set_out_of_range :
  bitmap_set [0; 255] 2 16 true = [0; 255] /\ bitmap_set [0; 255] 2 (-1) true = [0; 255].
Proof. split; reflexivity. Qed.

End BitmapFacts.


(** ** Facts about the cyclic walk *)

Module CyclicFacts.
Import Cyclic.
Local Open Scope nat_scope.

Section Walk.
Variable n : nat.
Variable cap : nat -> bool.

Lemma wrap_succ_lt i : i < n -> wrap_succ n i < n.
Proof. unfold wrap_succ. destruct (Nat.eqb_spec (S i) n); lia. Qed.

Lemma wrap_pred_lt i : i < n -> wrap_pred n i < n.
Proof. unfold wrap_pred. destruct (Nat.eqb_spec i 0); lia. Qed.

Lemma seek_sound step fuel i r :
  seek step cap fuel i = Some r -> cap r = true.
Proof.
  revert i. induction fuel as [|fuel IH]; intros i; simpl; [discriminate|].
  destruct (cap (step i)) eqn:Hc; [intros [= <-]; exact Hc | apply IH].
Qed.

Lemma seek_range step fuel i r :
  (forall j, j < n -> step j < n) -> i < n ->
  seek step cap fuel i = Some r -> r < n.
Proof.
  intros Hstep. revert i. induction fuel as [|fuel IH]; intros i Hi; simpl; [discriminate|].
  destruct (cap (step i)); [intros [= <-]; auto | apply IH; auto].
Qed.

(** More fuel never changes an answer already found. *)
Lemma seek_more_fuel step fuel fuel' i r :
  fuel <= fuel' -> seek step cap fuel i = Some r -> seek step cap fuel' i = Some r.
Proof.
  revert fuel' i. induction fuel as [|fuel IH]; intros fuel' i Hle; simpl; [discriminate|].
  destruct fuel' as [|fuel']; [lia|]. simpl.
  destruct (cap (step i)); [auto | apply IH; lia].
Qed.

(** *** Termination: a target [c] is met within [n] steps. *)

Local Abbreviation dist_up := (Cyclic.dist_up n).
Local Abbreviation dist_down := (Cyclic.dist_down n).

Lemma seek_up_terminates c fuel i :
  c < n -> cap c = true -> i < n -> dist_up c i < fuel ->
  exists r, seek (wrap_succ n) cap fuel i = Some r.
Proof.
  intros Hc Hcap. revert i. induction fuel as [|fuel IH]; intros i Hi Hd; [lia|].
  cbn [seek]. destruct (cap (wrap_succ n i)) eqn:Hn; [eauto|].
  apply IH; [apply wrap_succ_lt; exact Hi|].
  assert (Hne : wrap_succ n i <> c) by (intros E; rewrite E in Hn; congruence).
  revert Hd Hne. unfold Cyclic.dist_up, wrap_succ.
  destruct (Nat.eqb_spec (S i) n), (Nat.ltb_spec i c), (Nat.ltb_spec 0 c),
    (Nat.ltb_spec (S i) c); lia.
Qed.

Lemma seek_down_terminates c fuel i :
  c < n -> cap c = true -> i < n -> dist_down c i < fuel ->
  exists r, seek (wrap_pred n) cap fuel i = Some r.
Proof.
  intros Hc Hcap. revert i. induction fuel as [|fuel IH]; intros i Hi Hd; [lia|].
  cbn [seek]. destruct (cap (wrap_pred n i)) eqn:Hn; [eauto|].
  apply IH; [apply wrap_pred_lt; exact Hi|].
  assert (Hne : wrap_pred n i <> c) by (intros E; rewrite E in Hn; congruence).
  revert Hd Hne. unfold Cyclic.dist_down, wrap_pred.
  destruct (Nat.eqb_spec i 0), (Nat.ltb_spec c i), (Nat.ltb_spec c (n - 1)),
    (Nat.ltb_spec c (i - 1)); lia.
Qed.

Lemma dist_up_lt c i : c < n -> i < n -> dist_up c i < n.
Proof. unfold Cyclic.dist_up. destruct (Nat.ltb_spec i c); lia. Qed.

Lemma dist_down_lt c i : c < n -> i < n -> dist_down c i < n.
Proof. unfold Cyclic.dist_down. destruct (Nat.ltb_spec c i); lia. Qed.

(** Without any index satisfying [cap] the walk never stops. *)
Lemma seek_diverges step fuel i :
  (forall j, cap j = false) -> seek step cap fuel i = None.
Proof.
  intros Hnone. revert i. induction fuel as [|fuel IH]; intros i; simpl; [reflexivity|].
  rewrite Hnone. apply IH.
Qed.

(** *** Where the walk stops *)

Local Abbreviation none_between := (Cyclic.none_between cap).
Local Abbreviation none_below := (Cyclic.none_below cap).

(** Going up from [i], the walk stops at the first hit above [i]; if
    there is none it wraps and stops at the lowest hit. *)
Lemma seek_up_spec fuel i r :
  i < n -> seek (wrap_succ n) cap fuel i = Some r ->
  (i < r /\ none_between i r) \/
  (r <= i /\ none_between i n /\ none_below r).
Proof.
  revert i. induction fuel as [|fuel IH]; intros i Hi; cbn [seek]; [discriminate|].
  destruct (cap (wrap_succ n i)) eqn:Hn.
  - intros [= <-]. unfold wrap_succ. destruct (Nat.eqb_spec (S i) n).
    + right. repeat split; [lia | intros j Hj; lia | intros j Hj; lia].
    + left. split; [lia | intros j Hj; lia].
  - intros Hs. pose proof (seek_sound _ _ _ _ Hs) as Hr.
    pose proof (seek_range _ _ _ _ wrap_succ_lt (wrap_succ_lt i Hi) Hs) as Hrn.
    apply IH in Hs; [|apply wrap_succ_lt; exact Hi].
    revert Hn Hs. unfold wrap_succ. destruct (Nat.eqb_spec (S i) n) as [He|He]; intros Hn Hs.
    + right. destruct Hs as [[Hlt Hnb]|[Hle _]].
      * repeat split; [lia | intros j Hj; lia |].
        intros j Hj. destruct j; [exact Hn | apply Hnb; lia].
      * assert (r = 0) by lia. subst r. congruence.
    + destruct Hs as [[Hlt Hnb]|[Hle [Hnb Hlow]]].
      * left. split; [lia|]. intros j Hj.
        destruct (Nat.eq_dec j (S i)) as [->|]; [exact Hn | apply Hnb; lia].
      * right. assert (r <> S i) by (intros ->; congruence).
        repeat split; [lia | | exact Hlow].
        intros j Hj. destruct (Nat.eq_dec j (S i)) as [->|]; [exact Hn | apply Hnb; lia].
Qed.

(** Going down from [i], the walk stops at the first hit below [i];
    if there is none it wraps and stops at the highest hit. *)
Lemma seek_down_spec fuel i r :
  i < n -> seek (wrap_pred n) cap fuel i = Some r ->
  (r < i /\ none_between r i) \/
  (i <= r /\ none_below i /\ none_between r n).
Proof.
  revert i. induction fuel as [|fuel IH]; intros i Hi; cbn [seek]; [discriminate|].
  destruct (cap (wrap_pred n i)) eqn:Hn.
  - intros [= <-]. unfold wrap_pred. destruct (Nat.eqb_spec i 0).
    + right. repeat split; [lia | intros j Hj; lia | intros j Hj; lia].
    + left. split; [lia | intros j Hj; lia].
  - intros Hs. pose proof (seek_sound _ _ _ _ Hs) as Hr.
    pose proof (seek_range _ _ _ _ wrap_pred_lt (wrap_pred_lt i Hi) Hs) as Hrn.
    apply IH in Hs; [|apply wrap_pred_lt; exact Hi].
    revert Hn Hs. unfold wrap_pred. destruct (Nat.eqb_spec i 0) as [He|He]; intros Hn Hs.
    + right. destruct Hs as [[Hlt Hnb]|[Hle _]].
      * repeat split; [lia | intros j Hj; lia |].
        intros j Hj. destruct (Nat.eq_dec j (n - 1)) as [->|]; [exact Hn | apply Hnb; lia].
      * assert (r = n - 1) by lia. subst r. congruence.
    + destruct Hs as [[Hlt Hnb]|[Hle [Hlow Hnb]]].
      * left. split; [lia|]. intros j Hj.
        destruct (Nat.eq_dec j (i - 1)) as [->|]; [exact Hn | apply Hnb; lia].
      * right. assert (r <> i - 1) by (intros ->; congruence).
        repeat split; [lia | | exact Hnb].
        intros j Hj. destruct (Nat.eq_dec j (i - 1)) as [->|]; [exact Hn | apply Hlow; lia].
Qed.

End Walk.
Section Rank.
Variable n : nat.
Variable cap : nat -> bool.

Lemma rank_ext cap' i :
  (forall j, j < i -> cap j = cap' j) -> rank cap i = rank cap' i.
Proof.
  induction i as [|i IH]; intros H; simpl; [reflexivity|].
  rewrite IH by (intros j Hj; apply H; lia). rewrite (H i) by lia. reflexivity.
Qed.

Lemma rank_mono a b : a <= b -> rank cap a <= rank cap b.
Proof. induction 1; simpl; lia. Qed.

Lemma rank_flat a b :
  a <= b -> (forall j, a <= j < b -> cap j = false) -> rank cap b = rank cap a.
Proof.
  induction 1 as [|b Hle IH]; intros H; [reflexivity|]. simpl.
  rewrite (H b) by lia. rewrite IH by (intros j Hj; apply H; lia). lia.
Qed.

Lemma rank_hit i : cap i = true -> rank cap (S i) = S (rank cap i).
Proof. intros H. simpl. rewrite H. lia. Qed.

Lemma rank_lt a b : a < b -> cap a = true -> rank cap a < rank cap b.
Proof.
  intros Hlt Ha. pose proof (rank_mono (S a) b Hlt). rewrite (rank_hit a Ha) in *. lia.
Qed.

(** Two hits with the same rank are the same index. *)
Lemma rank_inj a b :
  cap a = true -> cap b = true -> rank cap a = rank cap b -> a = b.
Proof.
  intros Ha Hb He. destruct (Nat.lt_trichotomy a b) as [H|[H|H]]; [|exact H|].
  - pose proof (rank_lt a b H Ha). lia.
  - pose proof (rank_lt b a H Hb). lia.
Qed.

(** One step up from a hit moves to the next rank, cyclically. *)
Lemma seek_up_rank fuel i r :
  i < n -> cap i = true -> seek (wrap_succ n) cap fuel i = Some r ->
  (rank cap r = S (rank cap i) /\ S (rank cap i) < rank cap n) \/
  (rank cap r = 0 /\ S (rank cap i) = rank cap n).
Proof.
  intros Hi Hc Hs.
  pose proof (seek_sound cap _ _ _ _ Hs) as Hr.
  pose proof (seek_range n cap _ _ _ _ (wrap_succ_lt n) Hi Hs) as Hrn.
  destruct (seek_up_spec n cap fuel i r Hi Hs) as [[Hlt Hnb]|[Hle [Hnb Hlow]]].
  - left. assert (He : rank cap r = rank cap (S i)).
    { apply rank_flat; [lia|]. intros j Hj. apply Hnb. lia. }
    rewrite He, (rank_hit i Hc). split; [reflexivity|].
    pose proof (rank_lt r n Hrn Hr). rewrite He, (rank_hit i Hc) in *. lia.
  - right. split.
    + change 0 with (rank cap 0). apply rank_flat; [lia|]. intros j Hj. apply Hlow. lia.
    + rewrite <- (rank_hit i Hc). symmetry. apply rank_flat; [lia|].
      intros j Hj. apply Hnb. lia.
Qed.

Lemma seek_iter_rank fuel k : forall i,
  n <= fuel -> i < n -> cap i = true -> k <= rank cap n ->
  exists r, seek_iter (wrap_succ n) cap fuel k i = Some r /\
            cap r = true /\ r < n /\
            rank cap r = if rank cap i + k <? rank cap n then rank cap i + k
                         else rank cap i + k - rank cap n.
Proof.
  induction k as [|k IH]; intros i Hfuel Hi Hc Hk.
  - exists i. pose proof (rank_lt i n Hi Hc). simpl.
    destruct (Nat.ltb_spec (rank cap i + 0) (rank cap n)); repeat split; auto; lia.
  - cbn [seek_iter].
    destruct (seek_up_terminates n cap i fuel i Hi Hc Hi) as [i' Hs].
    { pose proof (dist_up_lt n i i Hi Hi). lia. }
    rewrite Hs.
    pose proof (seek_sound cap _ _ _ _ Hs) as Hc'.
    pose proof (seek_range n cap _ _ _ _ (wrap_succ_lt n) Hi Hs) as Hi'.
    destruct (IH i' Hfuel Hi' Hc' ltac:(lia)) as (r & Hr & Hcr & Hrn & Hrank).
    exists r. repeat split; auto. rewrite Hrank.
    destruct (seek_up_rank fuel i i' Hi Hc Hs) as [[He Hlt]|[He Hlt]]; rewrite He.
    + replace (rank cap i + S k) with (S (rank cap i) + k) by lia. reflexivity.
    + destruct (Nat.ltb_spec (0 + k) (rank cap n)), (Nat.ltb_spec (rank cap i + S k) (rank cap n)); lia.
Qed.

(** As many steps as there are hits lead back to the starting hit. *)
Lemma seek_iter_cycle fuel i :
  n <= fuel -> i < n -> cap i = true ->
  seek_iter (wrap_succ n) cap fuel (rank cap n) i = Some i.
Proof.
  intros Hfuel Hi Hc.
  destruct (seek_iter_rank fuel (rank cap n) i Hfuel Hi Hc (Nat.le_refl _))
    as (r & Hr & Hcr & Hrn & Hrank).
  rewrite Hr. f_equal. apply rank_inj; auto. rewrite Hrank.
  destruct (Nat.ltb_spec (rank cap i + rank cap n) (rank cap n)); lia.
Qed.

End Rank.
End CyclicFacts.

(** ** The traversal loops as cyclic walks *)

Module TraversalFacts.
Import BuildMessage Cyclic CyclicFacts.

Lemma u32_small (x : Z) : 0 <= x < 2 ^ 32 -> u32 x = x.
Proof. intros H. unfold u32. apply Z.mod_small. exact H. Qed.

Lemma set_cur_decoder_same (privdata : BuildViewPrivData) :
  set_cur_decoder privdata (cur_decoder privdata) = privdata.
Proof. destruct privdata; reflexivity. Qed.

Lemma set_cur_decoder_twice (privdata : BuildViewPrivData) (a b : Z) :
  set_cur_decoder (set_cur_decoder privdata a) b = set_cur_decoder privdata b.
Proof. reflexivity. Qed.

Lemma rank_buildable (regs : list ProtoViewDecoder) :
  rank (buildable_at regs) (length regs) = buildable_count regs.
Proof.
  induction regs as [|d regs IH] using rev_ind; [reflexivity|].
  unfold buildable_count in *. rewrite list.filter_app, !length_app. cbn [length].
  rewrite Nat.add_1_r. cbn [rank].
  rewrite (rank_ext _ (buildable_at regs)).
  - rewrite IH. f_equal. unfold buildable_at.
    rewrite lookup_app_r, Nat.sub_diag by lia. cbn.
    destruct (decide (buildable d = true)) as [->|Hn]; [reflexivity|].
    destruct (buildable d); [contradiction | reflexivity].
  - intros j Hj. unfold buildable_at. rewrite lookup_app_l by lia. reflexivity.
Qed.

Section Valid.
Variable regs : list ProtoViewDecoder.
Variable rest : list (option ProtoViewDecoder).
Hypothesis Hsize : Z.of_nat (length regs) < 2 ^ 32.

Local Abbreviation D := (registry_of regs rest).
Local Abbreviation n := (length regs).
Local Abbreviation cap := (buildable_at regs).

Lemma Decoders_at_reg (i : nat) :
  (i <= n)%nat -> Decoders_at D (Z.of_nat i) = Ret (regs !! i).
Proof.
  intros Hi. unfold Decoders_at, registry_of. rewrite Nat2Z.id.
  destruct (decide (i < n)%nat) as [Hlt|Hge].
  - rewrite lookup_app_l by (rewrite length_fmap; lia).
    rewrite list_lookup_fmap. destruct (lookup_lt_is_Some_2 regs i Hlt) as [d ->].
    reflexivity.
  - rewrite lookup_app_r by (rewrite length_fmap; lia).
    rewrite length_fmap. replace (i - n)%nat with 0%nat by lia.
    rewrite (lookup_ge_None_2 regs i) by lia. reflexivity.
Qed.

Lemma get_fields_is_null_reg (i : nat) :
  (i < n)%nat -> get_fields_is_null D (Z.of_nat i) = Ret (negb (cap i)).
Proof.
  intros Hi. unfold get_fields_is_null. rewrite Decoders_at_reg by lia.
  unfold buildable_at. destruct (lookup_lt_is_Some_2 regs i Hi) as [d ->].
  reflexivity.
Qed.

Lemma select_next_loop_seek (fuel : nat) : forall i : nat,
  (i < n)%nat ->
  select_next_loop D fuel (Z.of_nat i) = lift (seek (wrap_succ n) cap fuel i).
Proof.
  induction fuel as [|fuel IH]; intros i Hi; [reflexivity|].
  cbn [select_next_loop seek].
  replace (u32 (Z.of_nat i + 1)) with (Z.of_nat (S i)) by (rewrite u32_small; lia).
  rewrite Decoders_at_reg by lia. cbn [bind].
  assert (Hcur : match regs !! S i with None => 0 | Some _ => Z.of_nat (S i) end
                 = Z.of_nat (wrap_succ n i)).
  { unfold wrap_succ. destruct (Nat.eqb_spec (S i) n) as [He|He].
    - rewrite lookup_ge_None_2 by lia. reflexivity.
    - destruct (lookup_lt_is_Some_2 regs (S i)) as [d ->]; [lia | reflexivity]. }
  rewrite Hcur. pose proof (wrap_succ_lt n i Hi) as Hw.
  rewrite get_fields_is_null_reg by exact Hw. cbn [bind].
  destruct (cap (wrap_succ n i)); cbn [negb]; [reflexivity | apply IH; exact Hw].
Qed.

Lemma seek_terminator_reg (gas : nat) : forall i : nat,
  (i <= n)%nat -> (n - i < gas)%nat ->
  seek_terminator D gas (Z.of_nat i) = Ret (Z.of_nat n).
Proof.
  induction gas as [|gas IH]; intros i Hi Hgas; [lia|].
  cbn [seek_terminator]. rewrite Decoders_at_reg by lia. cbn [bind].
  destruct (decide (i < n)%nat) as [Hlt|Hge].
  - destruct (lookup_lt_is_Some_2 regs i Hlt) as [d ->].
    replace (u32 (Z.of_nat i + 1)) with (Z.of_nat (S i)) by (rewrite u32_small; lia).
    apply IH; lia.
  - rewrite lookup_ge_None_2 by lia. f_equal. lia.
Qed.

Lemma select_prev_loop_seek (gas fuel : nat) : forall i : nat,
  (n < gas)%nat -> (i < n)%nat ->
  select_prev_loop D gas fuel (Z.of_nat i) = lift (seek (wrap_pred n) cap fuel i).
Proof.
  induction fuel as [|fuel IH]; intros i Hgas Hi; [reflexivity|].
  cbn [select_prev_loop seek].
  assert (Hcur : (let! cur := (if Z.of_nat i =? 0 then seek_terminator D gas (Z.of_nat i)
                               else Ret (Z.of_nat i)) in Ret (u32 (cur - 1)))
                 = Ret (Z.of_nat (wrap_pred n i))).
  { unfold wrap_pred. destruct (Nat.eqb_spec i 0) as [He|He].
    - subst i. change (Z.of_nat 0 =? 0) with true. cbn match.
      rewrite (seek_terminator_reg gas 0) by lia. cbn [bind].
      rewrite u32_small by lia. f_equal. lia.
    - destruct (Z.eqb_spec (Z.of_nat i) 0); [lia|]. cbn [bind].
      rewrite u32_small by lia. f_equal. lia. }
  pose proof (wrap_pred_lt n i Hi) as Hw.
  destruct (if Z.of_nat i =? 0 then seek_terminator D gas (Z.of_nat i) else Ret (Z.of_nat i))
    as [cur| |]; cbn [bind] in Hcur |- *; try discriminate.
  injection Hcur as ->.
  rewrite get_fields_is_null_reg by exact Hw. cbn [bind].
  destruct (cap (wrap_pred n i)); cbn [negb]; [reflexivity | apply IH; assumption].
Qed.

Lemma select_next_times_seek (fuel k : nat) : forall (privdata : BuildViewPrivData) (i : nat),
  (i < n)%nat -> cur_decoder privdata = Z.of_nat i ->
  select_next_times D fuel k privdata
  = match seek_iter (wrap_succ n) cap fuel k i with
    | Some r => Ret (set_cur_decoder privdata (Z.of_nat r))
    | None => OutOfFuel
    end.
Proof.
  induction k as [|k IH]; intros privdata i Hi Hcur.
  - cbn. rewrite <- Hcur, set_cur_decoder_same. reflexivity.
  - cbn [select_next_times seek_iter]. unfold select_next_decoder.
    rewrite Hcur, select_next_loop_seek by exact Hi.
    destruct (seek (wrap_succ n) cap fuel i) as [i'|] eqn:Hs; cbn [lift bind]; [|reflexivity].
    rewrite (IH _ i').
    + destruct (seek_iter (wrap_succ n) cap fuel k i'); reflexivity.
    + exact (seek_range n cap _ _ _ _ (wrap_succ_lt n) Hi Hs).
    + reflexivity.
Qed.

(** The forward step from an index of the registry, when some decoder
    can build: it returns, on a decoder that can build, the next such
    one in cyclic order. *)
Lemma select_next_decoder_spec (fuel : nat) (privdata : BuildViewPrivData) (s c : nat) :
  cur_decoder privdata = Z.of_nat s -> (s < n)%nat ->
  (c < n)%nat -> cap c = true -> (n <= fuel)%nat ->
  exists i, select_next_decoder D fuel privdata = Ret (set_cur_decoder privdata (Z.of_nat i)) /\
            (i < n)%nat /\ cap i = true /\
            ((s < i)%nat /\ none_between cap s i \/
             (i <= s)%nat /\ none_between cap s n /\ none_below cap i).
Proof.
  intros Hcur Hs Hc Hcap Hfuel.
  destruct (seek_up_terminates n cap c fuel s Hc Hcap Hs) as [i Hi].
  { pose proof (dist_up_lt n c s Hc Hs). lia. }
  exists i. unfold select_next_decoder.
  rewrite Hcur, select_next_loop_seek, Hi by exact Hs. cbn [lift bind].
  split; [reflexivity|]. split; [|split].
  - exact (seek_range n cap _ _ _ _ (wrap_succ_lt n) Hs Hi).
  - exact (seek_sound cap _ _ _ _ Hi).
  - exact (seek_up_spec n cap fuel s i Hs Hi).
Qed.

(** The backward step, likewise. *)
Lemma select_prev_decoder_spec (fuel : nat) (privdata : BuildViewPrivData) (s c : nat) :
  cur_decoder privdata = Z.of_nat s -> (s < n)%nat ->
  (c < n)%nat -> cap c = true -> (n < fuel)%nat ->
  exists i, select_prev_decoder D fuel privdata = Ret (set_cur_decoder privdata (Z.of_nat i)) /\
            (i < n)%nat /\ cap i = true /\
            ((i < s)%nat /\ none_between cap i s \/
             (s <= i)%nat /\ none_below cap s /\ none_between cap i n).
Proof.
  intros Hcur Hs Hc Hcap Hfuel.
  destruct (seek_down_terminates n cap c fuel s Hc Hcap Hs) as [i Hi].
  { pose proof (dist_down_lt n c s Hc Hs). lia. }
  exists i. unfold select_prev_decoder.
  rewrite Hcur, select_prev_loop_seek, Hi by assumption. cbn [lift bind].
  split; [reflexivity|]. split; [|split].
  - exact (seek_range n cap _ _ _ _ (wrap_pred_lt n) Hs Hi).
  - exact (seek_sound cap _ _ _ _ Hi).
  - exact (seek_down_spec n cap fuel s i Hs Hi).
Qed.

(** A registry without any decoder that can build keeps both loops
    running for ever, whatever the fuel. *)
Lemma select_next_never_returns (fuel s : nat) :
  (s < n)%nat -> (forall j, cap j = false) ->
  select_next_loop D fuel (Z.of_nat s) = OutOfFuel.
Proof.
  intros Hs Hnone. rewrite select_next_loop_seek by exact Hs.
  rewrite seek_diverges by exact Hnone. reflexivity.
Qed.

Lemma select_prev_never_returns (fuel s : nat) :
  (s < n)%nat -> (forall j, cap j = false) ->
  select_prev_loop D (S n) fuel (Z.of_nat s) = OutOfFuel.
Proof.
  intros Hs Hnone. rewrite select_prev_loop_seek by (lia || exact Hs).
  rewrite seek_diverges by exact Hnone. reflexivity.
Qed.

End Valid.

(** C4: in a registry (decoders followed by a NULL entry) whose browsed
    index [s] is on a decoder that can build, [select_next_decoder] and
    [select_prev_decoder] return with the index stored in the private
    data on a decoder that can build, the other fields untouched: the
    nearest one after (before) [s], or, when there is none, the lowest
    (highest) one of the registry, which is the wrap from the last
    decoder to the first (from the first to the last).  Calling
    [select_next_decoder] as many times as there are decoders that can
    build brings the index back to [s], and fewer calls leave it on
    another decoder. *)
Theorem decoder_traversal_cycle
    (regs : list ProtoViewDecoder) (rest : list (option ProtoViewDecoder))
    (privdata : BuildViewPrivData) (s fuel : nat) :
  Z.of_nat (length regs) < 2 ^ 32 ->
  cur_decoder privdata = Z.of_nat s ->
  (s < length regs)%nat ->
  buildable_at regs s = true ->
  (length regs < fuel)%nat ->
  (exists i privdata',
     select_next_decoder (registry_of regs rest) fuel privdata = Ret privdata' /\
     cur_decoder privdata' = Z.of_nat i /\
     decoder privdata' = decoder privdata /\ fieldset privdata' = fieldset privdata /\
     cur_field privdata' = cur_field privdata /\
     (i < length regs)%nat /\ buildable_at regs i = true /\
     ((s < i)%nat /\ none_between (buildable_at regs) s i \/
      (i <= s)%nat /\ none_between (buildable_at regs) s (length regs) /\
        none_below (buildable_at regs) i)) /\
  (exists i privdata',
     select_prev_decoder (registry_of regs rest) fuel privdata = Ret privdata' /\
     cur_decoder privdata' = Z.of_nat i /\
     decoder privdata' = decoder privdata /\ fieldset privdata' = fieldset privdata /\
     cur_field privdata' = cur_field privdata /\
     (i < length regs)%nat /\ buildable_at regs i = true /\
     ((i < s)%nat /\ none_between (buildable_at regs) i s \/
      (s <= i)%nat /\ none_below (buildable_at regs) s /\
        none_between (buildable_at regs) i (length regs))) /\
  select_next_times (registry_of regs rest) fuel (buildable_count regs) privdata
    = Ret privdata /\
  (forall k : nat, (0 < k < buildable_count regs)%nat ->
     exists i privdata',
       select_next_times (registry_of regs rest) fuel k privdata = Ret privdata' /\
       cur_decoder privdata' = Z.of_nat i /\
       (i < length regs)%nat /\ buildable_at regs i = true /\ i <> s).
Proof.
  intros Hsize Hcur Hs Hcap Hfuel. split; [|split; [|split]].
  - destruct (select_next_decoder_spec regs rest Hsize fuel privdata s s)
      as (i & Hr & Hi & Hci & Hpos); auto; [lia|].
    exists i, (set_cur_decoder privdata (Z.of_nat i)). repeat split; auto.
  - destruct (select_prev_decoder_spec regs rest Hsize fuel privdata s s)
      as (i & Hr & Hi & Hci & Hpos); auto.
    exists i, (set_cur_decoder privdata (Z.of_nat i)). repeat split; auto.
  - rewrite (select_next_times_seek regs rest Hsize fuel _ privdata s Hs Hcur).
    rewrite <- rank_buildable.
    rewrite seek_iter_cycle by (auto; lia).
    rewrite <- Hcur. rewrite set_cur_decoder_same. reflexivity.
  - intros k Hk. rewrite <- rank_buildable in Hk.
    destruct (seek_iter_rank (length regs) (buildable_at regs) fuel k s)
      as (r & Hr & Hcr & Hrn & Hrank); [lia | exact Hs | exact Hcap | lia |].
    exists r, (set_cur_decoder privdata (Z.of_nat r)).
    rewrite (select_next_times_seek regs rest Hsize fuel k privdata s Hs Hcur), Hr.
    split; [reflexivity|]. split; [reflexivity|]. split; [exact Hrn|]. split; [exact Hcr|].
    intros ->.
    pose proof (rank_lt (buildable_at regs) s (length regs) Hs Hcap) as Hlt.
    destruct (Nat.ltb_spec (rank (buildable_at regs) s + k)
                (rank (buildable_at regs) (length regs))); lia.
Qed.

(** C5: when the registry holds at least one decoder that can build,
    both traversal loops return from every starting index of the
    registry, within a number of iterations bounded by its length. *)
Theorem traversal_terminates
    (regs : list ProtoViewDecoder) (rest : list (option ProtoViewDecoder))
    (privdata : BuildViewPrivData) (s c fuel : nat) :
  Z.of_nat (length regs) < 2 ^ 32 ->
  cur_decoder privdata = Z.of_nat s ->
  (s < length regs)%nat ->
  (c < length regs)%nat -> buildable_at regs c = true ->
  (length regs < fuel)%nat ->
  (exists i, select_next_decoder (registry_of regs rest) fuel privdata
             = Ret (set_cur_decoder privdata (Z.of_nat i))) /\
  (exists i, select_prev_decoder (registry_of regs rest) fuel privdata
             = Ret (set_cur_decoder privdata (Z.of_nat i))).
Proof.
  intros Hsize Hcur Hs Hc Hcap Hfuel. split.
  - destruct (select_next_decoder_spec regs rest Hsize fuel privdata s c) as (i & Hi & _);
      auto; [lia | eauto].
  - destruct (select_prev_decoder_spec regs rest Hsize fuel privdata s c) as (i & Hi & _);
      auto; eauto.
Qed.

(** On the sample registry, whose decoders 1 and 3 can build. *)
Example select_next_sample :
  select_next_decoder Samples.sample_Decoders 5 (Samples.browsing 1) = Ret (Samples.browsing 3) /\
  select_next_decoder Samples.sample_Decoders 5 (Samples.browsing 3) = Ret (Samples.browsing 1) /\
  select_next_decoder Samples.sample_Decoders 5 (Samples.browsing 0) = Ret (Samples.browsing 1).
Proof. repeat split. Qed.

Example select_prev_sample :
  select_prev_decoder Samples.sample_Decoders 5 (Samples.browsing 1) = Ret (Samples.browsing 3) /\
  select_prev_decoder Samples.sample_Decoders 5 (Samples.browsing 3) = Ret (Samples.browsing 1) /\
  select_prev_decoder Samples.sample_Decoders 5 (Samples.browsing 0) = Ret (Samples.browsing 3).
Proof. repeat split. Qed.

(** With no decoder able to build, fuel runs out; on an empty array the
    loops leave it. *)
Example select_next_no_builder :
  select_next_loop (registry_of [Samples.listen_decoder; Samples.listen_decoder] []) 1000 0
  = OutOfFuel /\
  select_next_loop (registry_of [] []) 1000 0 = Fault /\
  select_prev_loop (registry_of [] []) 1000 1000 0 = Fault.
Proof. repeat split. Qed.

Lemma decoder_traversal_cycle_witness :
  (exists i privdata',
     select_next_decoder Samples.sample_Decoders 5 (Samples.browsing 3) = Ret privdata' /\
     cur_decoder privdata' = Z.of_nat i /\
     (i <= 3)%nat /\ none_below (buildable_at Samples.sample_regs) i /\
     buildable_at Samples.sample_regs i = true) /\
  (exists i privdata',
     select_prev_decoder Samples.sample_Decoders 5 (Samples.browsing 3) = Ret privdata' /\
     cur_decoder privdata' = Z.of_nat i /\
     (i < 4)%nat /\ buildable_at Samples.sample_regs i = true) /\
  select_next_times Samples.sample_Decoders 5 (buildable_count Samples.sample_regs)
    (Samples.browsing 3) = Ret (Samples.browsing 3) /\
  (exists i privdata',
     select_next_times Samples.sample_Decoders 5 1 (Samples.browsing 3) = Ret privdata' /\
     cur_decoder privdata' = Z.of_nat i /\ i <> 3%nat).
Proof.
  destruct (decoder_traversal_cycle Samples.sample_regs [] (Samples.browsing 3) 3 5)
    as ((i & p & Hi & Hci & _ & _ & _ & Hlt & Hcap & Hpos) &
        (j & q & Hj & Hcj & _ & _ & _ & Hjlt & Hjcap & _) & Hcycle & Hless);
    [reflexivity | reflexivity | cbn; lia | reflexivity | cbn; lia |].
  split; [|split; [|split]].
  - exists i, p. split; [exact Hi|]. split; [exact Hci|].
    destruct Hpos as [[Hsi _]|(Hle & _ & Hlow)];
      [change (length Samples.sample_regs) with 4%nat in Hlt; lia|].
    split; [exact Hle|]. split; [exact Hlow | exact Hcap].
  - exists j, q. auto.
  - exact Hcycle.
  - destruct (Hless 1%nat) as (r & pr & Hr & Hcr & _ & _ & Hne); [vm_compute; lia|].
    exists r, pr. auto.
Defined.

Lemma traversal_terminates_witness :
  (exists i, select_next_decoder Samples.sample_Decoders 5 (Samples.browsing 0)
             = Ret (set_cur_decoder (Samples.browsing 0) (Z.of_nat i))) /\
  (exists i, select_prev_decoder Samples.sample_Decoders 5 (Samples.browsing 0)
             = Ret (set_cur_decoder (Samples.browsing 0) (Z.of_nat i))).
Proof.
  apply (traversal_terminates Samples.sample_regs [] (Samples.browsing 0) 0 1 5);
    [reflexivity | reflexivity | cbn; lia | cbn; lia | reflexivity | cbn; lia].
Defined.

End TraversalFacts.

(** ** The builder's two input handlers *)

Module BuildMessageFacts.
Import BuildMessage.

(** C7: while no decoder is selected, a short press of OK on a browsed
    decoder that can build selects that decoder, creates a new field
    set and has the decoder's [get_fields] fill it; from then on the
    session is editing fields, its input going to
    [process_input_set_fields]. *)
Theorem select_decoder_on_ok
    (Decoders : list (option ProtoViewDecoder)) (fuel : nat)
    (privdata : BuildViewPrivData) (d : ProtoViewDecoder)
    (fill : ProtoViewFieldSet -> ProtoViewFieldSet) :
  decoder privdata = None ->
  Decoders !! Z.to_nat (cur_decoder privdata) = Some (Some d) ->
  get_fields d = Some fill ->
  let editing := {| decoder := Some d;
                    cur_decoder := cur_decoder privdata;
                    fieldset := Some (fill fieldset_new);
                    cur_field := cur_field privdata |} in
  process_input_build_message Decoders fuel privdata (short_press InputKeyOk)
  = Ret editing /\
  forall input,
    process_input_build_message Decoders fuel editing input
    = process_input_set_fields editing input.
Proof.
  intros Hnone Hd Hfill. split; [|reflexivity].
  unfold process_input_build_message. rewrite Hnone.
  unfold process_input_select_decoder, Decoders_at. cbn [short_press type key type_eqb key_eqb].
  rewrite Hd. cbn [bind]. rewrite Hfill. reflexivity.
Qed.

Lemma select_decoder_on_ok_witness :
  process_input_build_message Samples.sample_Decoders 5 (Samples.browsing 1)
    (short_press InputKeyOk)
  = Ret {| decoder := Some Samples.remote_decoder;
           cur_decoder := 1;
           fieldset := Some [Samples.address_field; Samples.command_field];
           cur_field := 0 |}.
Proof.
  apply (select_decoder_on_ok Samples.sample_Decoders 5 (Samples.browsing 1)
           Samples.remote_decoder (fun fs => fs ++ [Samples.address_field; Samples.command_field]));
    reflexivity.
Defined.

(** A browsed index on a decoder that cannot build makes OK call a NULL
    function pointer. *)
Example select_decoder_not_buildable :
  process_input_build_message Samples.sample_Decoders 5 (Samples.browsing 0)
    (short_press InputKeyOk) = Fault.
Proof. reflexivity. Qed.

(** Up and down while selecting go to the previous and the next decoder
    that can build. *)
Example select_decoder_up_down :
  process_input_build_message Samples.sample_Decoders 5 (Samples.browsing 1)
    (short_press InputKeyDown) = Ret (Samples.browsing 3) /\
  process_input_build_message Samples.sample_Decoders 5 (Samples.browsing 3)
    (short_press InputKeyUp) = Ret (Samples.browsing 1).
Proof. split; reflexivity. Qed.

(** Once a decoder is selected, every input event is dropped. *)
Lemma process_input_set_fields_drops
    (Decoders : list (option ProtoViewDecoder)) (fuel : nat)
    (privdata : BuildViewPrivData) (d : ProtoViewDecoder) (input : InputEvent) :
  decoder privdata = Some d ->
  process_input_build_message Decoders fuel privdata input = Ret privdata.
Proof. intros Hd. unfold process_input_build_message. rewrite Hd. reflexivity. Qed.

(** C6: in the field editing state of the sample session, where the
    screen announces "up/down: next field, ok: edit" and "Long press
    ok: create signal", the handler returns the session as it was for
    down, up, OK and long OK: the current field stays 0 of 2, no value
    editing starts and no signal is encoded. *)
Theorem editing_fields_drops_input :
  render_view_set_fields Samples.editing
  = Ret [ canvas_set_font FontPrimary;
          canvas_draw_field_title 0 9 "remote" 0 2;
          canvas_set_font FontSecondary;
          canvas_draw_str 0 19 "up/down: next field, ok: edit";
          canvas_draw_str 0 62 "Long press ok: create signal" ] /\
  process_input_build_message Samples.sample_Decoders 5 Samples.editing
    (short_press InputKeyDown) = Ret Samples.editing /\
  process_input_build_message Samples.sample_Decoders 5 Samples.editing
    (short_press InputKeyUp) = Ret Samples.editing /\
  process_input_build_message Samples.sample_Decoders 5 Samples.editing
    (short_press InputKeyOk) = Ret Samples.editing /\
  process_input_build_message Samples.sample_Decoders 5 Samples.editing
    (long_press InputKeyOk) = Ret Samples.editing.
Proof. repeat split. Qed.

End BuildMessageFacts.

(** ** The direct sampling view: pacing, capture, hand-over of the line *)

Module DirectSamplingFacts.
Import Bitmap BitmapFacts DirectSampling.

(** *** Pacing *)

Lemma process_input_usec_range (app : ProtoViewApp) (input : InputEvent) :
  USEC_PER_PIXEL_MIN <= usec_of app <= USEC_PER_PIXEL_MAX ->
  USEC_PER_PIXEL_MIN <= usec_of (process_input_direct_sampling app input)
    <= USEC_PER_PIXEL_MAX.
Proof.
  unfold usec_of, process_input_direct_sampling, USEC_PER_PIXEL_MIN, USEC_PER_PIXEL_MAX.
  cbn [view_privdata usec_per_pixel]. intros Hrange.
  destruct ((key_eqb (key input) InputKeyUp || key_eqb (key input) InputKeyDown) &&
            (type_eqb (type input) InputTypePress || type_eqb (type input) InputTypeRepeat));
    [|exact Hrange].
  match goal with |- context [u32 ?e] => generalize (u32 e); intros u end.
  rewrite Z.gtb_ltb.
  destruct (Z.ltb_spec u 5); [lia|]. destruct (Z.ltb_spec 300 u); lia.
Qed.

Lemma process_inputs_usec_range (inputs : list InputEvent) : forall app : ProtoViewApp,
  USEC_PER_PIXEL_MIN <= usec_of app <= USEC_PER_PIXEL_MAX ->
  USEC_PER_PIXEL_MIN <= usec_of (process_inputs app inputs) <= USEC_PER_PIXEL_MAX.
Proof.
  induction inputs as [|input inputs IH]; intros app Hrange; [exact Hrange|].
  apply IH, process_input_usec_range, Hrange.
Qed.

(** C2: from the default of 50 set on entry, the pacing value stays in
    [5, 300] after any series of input events, in particular after any
    series of up and down presses and repeats. *)
Theorem usec_per_pixel_bounded (app : ProtoViewApp) (inputs : list InputEvent) :
  USEC_PER_PIXEL_MIN
  <= usec_per_pixel (view_privdata
       (process_inputs (fst (view_enter_direct_sampling app)) inputs))
  <= USEC_PER_PIXEL_MAX.
Proof.
  apply (process_inputs_usec_range inputs). unfold usec_of. cbn.
  unfold USEC_PER_PIXEL_MIN, DEFAULT_USEC_PER_PIXEL, USEC_PER_PIXEL_MAX. lia.
Qed.

(** Down adds the step and stops at the maximum. *)
Lemma usec_after_down (app : ProtoViewApp) (t : InputType) :
  t = InputTypePress \/ t = InputTypeRepeat ->
  USEC_PER_PIXEL_MIN <= usec_of app <= USEC_PER_PIXEL_MAX ->
  usec_of (process_input_direct_sampling app {| key := InputKeyDown; type := t |})
  = Z.min USEC_PER_PIXEL_MAX (usec_of app + step_of t).
Proof.
  unfold usec_of, process_input_direct_sampling, step_of, USEC_PER_PIXEL_MIN,
    USEC_PER_PIXEL_MAX, USEC_PER_PIXEL_SMALL_CHANGE, USEC_PER_PIXEL_LARGE_CHANGE, u32.
  change (2 ^ 32) with 4294967296.
  intros [-> | ->] Hrange; cbn;
    rewrite Z.mod_small by lia; rewrite Z.gtb_ltb;
    match goal with |- context [?a <? 5] => destruct (Z.ltb_spec a 5) end; try lia;
    match goal with |- context [300 <? ?a] => destruct (Z.ltb_spec 300 a) end; lia.
Qed.

Lemma u32_sub (u c : Z) :
  0 <= u < 2 ^ 32 -> 0 < c < 2 ^ 32 ->
  u32 (u + u32 (- c)) = if c <=? u then u - c else u - c + 2 ^ 32.
Proof.
  unfold u32. change (2 ^ 32) with 4294967296. intros Hu Hc.
  assert (E : (- c) mod 4294967296 = 4294967296 - c)
    by (symmetry; apply (Z.mod_unique_pos _ _ (-1)); lia).
  rewrite E. destruct (Z.leb_spec c u); symmetry.
  - apply (Z.mod_unique_pos _ _ 1); lia.
  - apply (Z.mod_unique_pos _ _ 0); lia.
Qed.

(** Up subtracts the step and stops at the minimum, as long as the
    step does not exceed the value; when it does, the unsigned sum wraps
    and the upper clamp applies. *)
Lemma usec_after_up (app : ProtoViewApp) (t : InputType) :
  t = InputTypePress \/ t = InputTypeRepeat ->
  USEC_PER_PIXEL_MIN <= usec_of app <= USEC_PER_PIXEL_MAX ->
  usec_of (process_input_direct_sampling app {| key := InputKeyUp; type := t |})
  = if step_of t <=? usec_of app
    then Z.max USEC_PER_PIXEL_MIN (usec_of app - step_of t)
    else USEC_PER_PIXEL_MAX.
Proof.
  unfold usec_of, process_input_direct_sampling, step_of, USEC_PER_PIXEL_MIN,
    USEC_PER_PIXEL_MAX, USEC_PER_PIXEL_SMALL_CHANGE, USEC_PER_PIXEL_LARGE_CHANGE.
  intros [-> | ->] Hrange;
    cbn [key type view_privdata usec_per_pixel key_eqb type_eqb orb andb];
    rewrite u32_sub by (change (2 ^ 32) with 4294967296; lia);
    change (2 ^ 32) with 4294967296;
    set (u := usec_per_pixel (view_privdata app)) in *;
    rewrite Z.gtb_ltb;
    match goal with |- context [?s <=? u] => destruct (Z.leb_spec s u) end;
    match goal with |- context [?a <? 5] => destruct (Z.ltb_spec a 5) end; try lia;
    match goal with |- context [300 <? ?a] => destruct (Z.ltb_spec 300 a) end; lia.
Qed.

(** C3: holding Up from the default value.  The press takes 50 to 45,
    the first repeat takes 45 to 20, and the second repeat, whose step
    exceeds the value, lands on 300 instead of the minimum. *)
Theorem usec_per_pixel_wraps_to_max (app : ProtoViewApp) :
  let entered := fst (view_enter_direct_sampling app) in
  usec_of (process_inputs entered [press InputKeyUp]) = 45 /\
  usec_of (process_inputs entered [press InputKeyUp; repeated InputKeyUp]) = 20 /\
  usec_of (process_inputs entered
             [press InputKeyUp; repeated InputKeyUp; repeated InputKeyUp]) = 300.
Proof. repeat split. Qed.

(** *** The sampling pass *)

Lemma CAPTURED_BITMAP_SIZE_eq : CAPTURED_BITMAP_SIZE = 1024.
Proof. reflexivity. Qed.

(** [n] ticks from index [j]: the reads are those of ticks [j .. j+n-1]
    in order, the bits [j .. j+n-1] hold the levels read, and the other
    bits are untouched. *)
Lemma sampling_ticks_spec (gpio : Z -> bool) (n : nat) : forall (j : Z) (buf : list Z),
  0 <= j -> j + Z.of_nat n <= CAPTURED_BITMAP_SIZE * 8 ->
  Z.of_nat (length buf) = CAPTURED_BITMAP_SIZE ->
  length (fst (sampling_ticks n j gpio buf)) = length buf /\
  snd (sampling_ticks n j gpio buf) = map (read_at gpio) (seqZ j (Z.of_nat n)) /\
  forall i, 0 <= i < CAPTURED_BITMAP_SIZE * 8 ->
    bitmap_get (fst (sampling_ticks n j gpio buf)) CAPTURED_BITMAP_SIZE i
    = if (j <=? i) && (i <? j + Z.of_nat n) then gpio i
      else bitmap_get buf CAPTURED_BITMAP_SIZE i.
Proof.
  induction n as [|n IH]; intros j buf Hj Hn Hlen.
  - cbn [sampling_ticks fst snd]. repeat split. intros i Hi.
    destruct (Z.leb_spec j i), (Z.ltb_spec i (j + Z.of_nat 0)); cbn; try reflexivity; lia.
  - cbn [sampling_ticks].
    specialize (IH (j + 1) (bitmap_set buf CAPTURED_BITMAP_SIZE j (gpio j))).
    destruct (sampling_ticks n (j + 1) gpio (bitmap_set buf CAPTURED_BITMAP_SIZE j (gpio j)))
      as [b calls].
    cbn [fst snd] in *.
    destruct IH as (Hl & Hc & Hb); [lia | lia | rewrite bitmap_set_length; exact Hlen |].
    split; [rewrite Hl; apply bitmap_set_length|]. split.
    + rewrite Hc, (seqZ_cons j (Z.of_nat (S n))) by lia. cbn [map].
      unfold read_at at 2. do 3 f_equal; lia.
    + intros i Hi. rewrite Hb by exact Hi. rewrite bitmap_get_set by (auto; lia).
      destruct (Z.leb_spec (j + 1) i), (Z.ltb_spec i (j + 1 + Z.of_nat n)),
        (Z.leb_spec j i), (Z.ltb_spec i (j + Z.of_nat (S n))), (Z.eqb_spec i j);
        cbn; try reflexivity; try lia. subst i. reflexivity.
Qed.

Lemma sampling_pass_spec (gpio : Z -> bool) (buf : list Z) :
  Z.of_nat (length buf) = CAPTURED_BITMAP_SIZE ->
  length (fst (sampling_pass gpio buf)) = length buf /\
  snd (sampling_pass gpio buf) = map (read_at gpio) (seqZ 0 (CAPTURED_BITMAP_SIZE * 8)) /\
  forall i, 0 <= i < CAPTURED_BITMAP_SIZE * 8 ->
    bitmap_get (fst (sampling_pass gpio buf)) CAPTURED_BITMAP_SIZE i = gpio i.
Proof.
  intros Hlen. unfold sampling_pass.
  assert (Hn : Z.of_nat (Z.to_nat (CAPTURED_BITMAP_SIZE * 8)) = CAPTURED_BITMAP_SIZE * 8)
    by (apply Z2Nat.id; rewrite CAPTURED_BITMAP_SIZE_eq; lia).
  destruct (sampling_ticks_spec gpio (Z.to_nat (CAPTURED_BITMAP_SIZE * 8)) 0 buf)
    as (Hl & Hc & Hb); [lia | lia | exact Hlen |].
  rewrite Hn in Hc, Hb. split; [exact Hl|]. split; [exact Hc|].
  intros i Hi. rewrite Hb by exact Hi.
  destruct (Z.leb_spec 0 i), (Z.ltb_spec i (0 + CAPTURED_BITMAP_SIZE * 8)); cbn;
    try reflexivity; lia.
Qed.

(** C8: with direct sampling enabled, one render runs the sampling loop
    for exactly 8192 ticks (1024 bytes of 8 bits); tick [j] reads the
    level of the line and stores it at bit [j], so that afterwards every
    bit of the capture buffer holds a sampled level, whatever the buffer
    held before. *)
Theorem sampling_pass_fills_buffer
    (gpio : Z -> bool) (fresh : list Z) (app : ProtoViewApp) :
  direct_sampling_enabled app = true ->
  captured_block_sized fresh (captured (view_privdata app)) ->
  exists buf reads ops,
    render_view_direct_sampling gpio fresh app
    = Ret ({| txrx := txrx app;
              direct_sampling_enabled := true;
              view_privdata := {| captured := Live buf;
                                  usec_per_pixel := usec_per_pixel (view_privdata app) |} |},
           snd (alloc_captured fresh (captured (view_privdata app))) ++ reads,
           ops) /\
    reads = map (read_at gpio) (seqZ 0 (CAPTURED_BITMAP_SIZE * 8)) /\
    Z.of_nat (length reads) = 8192 /\
    CAPTURED_BITMAP_SIZE * 8 = 8192 /\
    Z.of_nat (length buf) = CAPTURED_BITMAP_SIZE /\
    forall j, 0 <= j < 8192 -> bitmap_get buf CAPTURED_BITMAP_SIZE j = gpio j.
Proof.
  intros Hen Hsized. unfold render_view_direct_sampling. rewrite Hen. cbn [negb andb].
  assert (Hblock : exists b0, fst (alloc_captured fresh (captured (view_privdata app))) = Live b0
                              /\ Z.of_nat (length b0) = CAPTURED_BITMAP_SIZE).
  { destruct (captured (view_privdata app)); cbn in *; [eauto | eauto | contradiction]. }
  destruct Hblock as (b0 & Hb0 & Hlen0).
  destruct (alloc_captured fresh (captured (view_privdata app))) as [p calls1].
  cbn [fst snd] in *. subst p.
  destruct (sampling_pass_spec gpio b0 Hlen0) as (Hl & Hc & Hb).
  destruct (sampling_pass gpio b0) as [b calls2]. cbn [fst snd] in *.
  eexists b, calls2, _. split; [reflexivity|]. split; [exact Hc|].
  split; [rewrite Hc, length_map, length_seqZ, Z2Nat.id; [reflexivity | discriminate]|].
  split; [reflexivity|]. split; [lia|].
  intros j Hj. apply Hb. rewrite CAPTURED_BITMAP_SIZE_eq. lia.
Qed.

(** *** Life of the capture buffer *)

Lemma in_seqZ (m len i : Z) : In i (seqZ m len) <-> m <= i < m + len.
Proof. rewrite <- list_elem_of_In. apply elem_of_seqZ. Qed.

Lemma dot_in_draw_captured (buf : list Z) (x y : Z) :
  In (canvas_draw_dot x y) (draw_captured buf) <->
  0 <= x < 128 /\ 0 <= y < 64 /\ bitmap_get buf CAPTURED_BITMAP_SIZE (y * 128 + x) = true.
Proof.
  unfold draw_captured. rewrite in_flat_map. split.
  - intros (y' & Hy' & Hin). rewrite in_flat_map in Hin. destruct Hin as (x' & Hx' & Hin).
    apply in_seqZ in Hy', Hx'.
    destruct (bitmap_get buf CAPTURED_BITMAP_SIZE (y' * 128 + x')) eqn:Hb; [|destruct Hin].
    destruct Hin as [[= <- <-]|[]]. repeat split; auto; lia.
  - intros (Hx & Hy & Hb). exists y. split; [apply in_seqZ; lia|].
    rewrite in_flat_map. exists x. split; [apply in_seqZ; lia|].
    rewrite Hb. left. reflexivity.
Qed.




(** *** Hand-over of the radio line *)

Lemma async_rx_active_iff (app : ProtoViewApp) :
  async_rx_active app = true <->
  txrx_state (txrx app) = TxRxStateRx /\ debug_timer_sampling (txrx app) = false.
Proof.
  unfold async_rx_active.
  destruct (txrx_state (txrx app)), (debug_timer_sampling (txrx app)); cbn;
    intuition discriminate.
Qed.

Lemma reception_calls_app (a b : list hal_call) :
  reception_calls (a ++ b) = reception_calls a ++ reception_calls b.
Proof. apply List.filter_app. Qed.

Lemma sampling_ticks_no_reception_call (gpio : Z -> bool) (n : nat) :
  forall (j : Z) (buf : list Z),
  reception_calls (snd (sampling_ticks n j gpio buf)) = [].
Proof.
  induction n as [|n IH]; intros j buf; [reflexivity|].
  cbn [sampling_ticks]. specialize (IH (j + 1) (bitmap_set buf CAPTURED_BITMAP_SIZE j (gpio j))).
  destruct (sampling_ticks n (j + 1) gpio (bitmap_set buf CAPTURED_BITMAP_SIZE j (gpio j))).
  exact IH.
Qed.

(** Input events leave the radio state and the capture pointer alone. *)
Lemma process_input_keeps (app : ProtoViewApp) (input : InputEvent) :
  txrx (process_input_direct_sampling app input) = txrx app /\
  captured (view_privdata (process_input_direct_sampling app input))
  = captured (view_privdata app).
Proof. split; reflexivity. Qed.

(** A render returns as long as the capture pointer is not stale; it
    leaves the radio state alone and makes no reception call. *)
Lemma render_keeps (gpio : Z -> bool) (fresh : list Z) (app : ProtoViewApp) :
  captured (view_privdata app) <> Dangling ->
  exists app' calls ops,
    render_view_direct_sampling gpio fresh app = Ret (app', calls, ops) /\
    txrx app' = txrx app /\
    captured (view_privdata app') <> Dangling /\
    reception_calls calls = [].
Proof.
  intros Hp. unfold render_view_direct_sampling.
  destruct (negb (direct_sampling_enabled app) && is_null (captured (view_privdata app))).
  { eexists _, _, _. split; [reflexivity|]. auto. }
  assert (Hblock : exists b0 c1, alloc_captured fresh (captured (view_privdata app)) = (Live b0, c1)
                                 /\ reception_calls c1 = []).
  { destruct (captured (view_privdata app)); cbn; [eauto | eauto | contradiction]. }
  destruct Hblock as (b0 & c1 & -> & Hc1).
  assert (Hpass : exists b c2, (if direct_sampling_enabled app then sampling_pass gpio b0
                                else (b0, [])) = (b, c2) /\ reception_calls c2 = []).
  { destruct (direct_sampling_enabled app); [|eauto].
    pose proof (sampling_ticks_no_reception_call gpio
                  (Z.to_nat (CAPTURED_BITMAP_SIZE * 8)) 0 b0) as Hn.
    unfold sampling_pass. destruct (sampling_ticks _ 0 gpio b0) as [b c2]. eauto. }
  destruct Hpass as (b & c2 & -> & Hc2).
  eexists _, _, _. split; [reflexivity|]. cbn [txrx view_privdata captured].
  split; [reflexivity|]. split; [discriminate|].
  rewrite reception_calls_app, Hc1, Hc2. reflexivity.
Qed.

Lemma run_ops_keeps (ops : list view_op) : forall app : ProtoViewApp,
  captured (view_privdata app) <> Dangling ->
  exists app' calls,
    run_ops ops app = Ret (app', calls) /\
    txrx app' = txrx app /\
    captured (view_privdata app') <> Dangling /\
    reception_calls calls = [].
Proof.
  induction ops as [|op ops IH]; intros app Hp.
  - exists app, []. auto.
  - cbn [run_ops].
    assert (Hop : exists app1 c1, run_op op app = Ret (app1, c1) /\ txrx app1 = txrx app /\
                    captured (view_privdata app1) <> Dangling /\ reception_calls c1 = []).
    { destruct op as [input|gpio fresh]; cbn [run_op].
      - eexists _, _. split; [reflexivity|]. auto.
      - destruct (render_keeps gpio fresh app Hp) as (app1 & c1 & o & -> & H1 & H2 & H3).
        eexists _, _. split; [reflexivity|]. auto. }
    destruct Hop as (app1 & c1 & -> & Ht1 & Hp1 & Hc1). cbn [bind fst snd].
    destruct (IH app1 Hp1) as (app2 & c2 & -> & Ht2 & Hp2 & Hc2). cbn [bind fst snd].
    eexists _, _. split; [reflexivity|].
    split; [congruence|]. split; [exact Hp2|].
    rewrite reception_calls_app, Hc1, Hc2. reflexivity.
Qed.

(** C10: whatever the radio state at entry and whatever happens while
    the view is shown, leaving the view undoes what entering did to the
    reception mode.  Asynchronous RX is restarted exactly when entry
    stopped it, that is when the state was Rx with timer sampling off;
    otherwise the raw sampling worker, stopped on entry, is restarted.
    Over the whole stay the reception calls are the stop of one mode
    followed by the start of the same mode, so the line set up for
    polling is always handed back to asynchronous RX. *)
Theorem view_exit_restores_reception (app : ProtoViewApp) (ops : list view_op) :
  captured (view_privdata app) <> Dangling ->
  exists app2 mid app3 out,
    run_ops ops (fst (view_enter_direct_sampling app)) = Ret (app2, mid) /\
    view_exit_direct_sampling app2 = Ret (app3, out) /\
    txrx app3 = txrx app /\
    (In furi_hal_subghz_start_async_rx out <->
     In furi_hal_subghz_stop_async_rx (snd (view_enter_direct_sampling app))) /\
    (In furi_hal_subghz_start_async_rx out <->
     txrx_state (txrx app) = TxRxStateRx /\ debug_timer_sampling (txrx app) = false) /\
    (In raw_sampling_worker_start out <-> ~ In furi_hal_subghz_start_async_rx out) /\
    (In raw_sampling_worker_start out <->
     In raw_sampling_worker_stop (snd (view_enter_direct_sampling app))) /\
    reception_calls (snd (view_enter_direct_sampling app) ++ mid ++ out)
    = if async_rx_active app
      then [furi_hal_subghz_stop_async_rx; furi_hal_subghz_rx;
            furi_hal_gpio_init_g0_input; furi_hal_subghz_start_async_rx]
      else [raw_sampling_worker_stop; raw_sampling_worker_start].
Proof.
  intros Hp.
  destruct (run_ops_keeps ops (fst (view_enter_direct_sampling app)) Hp)
    as (app2 & mid & Hrun & Ht & Hp2 & Hmid).
  cbn [view_enter_direct_sampling fst txrx] in Ht.
  assert (Hact : async_rx_active app2 = async_rx_active app)
    by (unfold async_rx_active; rewrite Ht; reflexivity).
  pose proof (async_rx_active_iff app) as Hiff.
  exists app2, mid. unfold view_exit_direct_sampling. rewrite Hact.
  destruct (captured (view_privdata app2)) as [|b|] eqn:Hc; [| |contradiction];
    cbn [bind fst snd Datatypes.app];
    (eexists _, _; split; [exact Hrun|]; split; [reflexivity|]; split; [exact Ht|]);
    rewrite !reception_calls_app, Hmid; cbn [view_enter_direct_sampling snd];
    destruct (async_rx_active app); cbn; intuition (discriminate || congruence).
Qed.

Lemma sampling_pass_fills_buffer_witness :
  exists buf reads ops,
    render_view_direct_sampling Samples.square_wave Samples.blank_block Samples.sampling_app
    = Ret (Samples.captured_app buf, malloc CAPTURED_BITMAP_SIZE :: reads, ops) /\
    Z.of_nat (length reads) = 8192 /\
    forall j, 0 <= j < 8192 -> bitmap_get buf CAPTURED_BITMAP_SIZE j = Z.odd j.
Proof.
  destruct (sampling_pass_fills_buffer Samples.square_wave Samples.blank_block
              Samples.sampling_app)
    as (buf & reads & ops & Hr & _ & Hn & _ & _ & Hb); [reflexivity | reflexivity |].
  exists buf, reads, ops. split; [exact Hr | split; [exact Hn | exact Hb]].
Defined.


Lemma view_exit_restores_reception_witness :
  exists app2 mid app3 out,
    run_ops [OpInput (press InputKeyDown);
             OpRender Samples.square_wave Samples.blank_block]
            (fst (view_enter_direct_sampling Samples.sampling_app)) = Ret (app2, mid) /\
    view_exit_direct_sampling app2 = Ret (app3, out) /\
    txrx app3 = Samples.radio_rx /\
    In furi_hal_subghz_start_async_rx out /\
    reception_calls (snd (view_enter_direct_sampling Samples.sampling_app) ++ mid ++ out)
    = [furi_hal_subghz_stop_async_rx; furi_hal_subghz_rx;
       furi_hal_gpio_init_g0_input; furi_hal_subghz_start_async_rx].
Proof.
  destruct (view_exit_restores_reception Samples.sampling_app
              [OpInput (press InputKeyDown);
               OpRender Samples.square_wave Samples.blank_block])
    as (app2 & mid & app3 & out & Hrun & Hexit & Ht & _ & Hiff & _ & _ & Hcalls);
    [discriminate |].
  exists app2, mid, app3, out.
  split; [exact Hrun | split; [exact Hexit | split; [exact Ht | split; [|exact Hcalls]]]].
  apply Hiff. split; reflexivity.
Defined.

(** Entry and exit with timer sampling on: the worker is stopped, then
    started again. *)
Example view_enter_exit_debug_timer :
  let app := {| txrx := {| txrx_state := TxRxStateRx; debug_timer_sampling := true |};
                direct_sampling_enabled := false;
                view_privdata := {| captured := NullPtr; usec_per_pixel := 0 |} |} in
  snd (view_enter_direct_sampling app) = [raw_sampling_worker_stop] /\
  view_exit_direct_sampling (fst (view_enter_direct_sampling app))
  = Ret (fst (view_enter_direct_sampling app), [raw_sampling_worker_start]).
Proof. split; reflexivity. Qed.

End DirectSamplingFacts.

(** ** More on the traversal of the registry *)

Module TraversalMore.
Import BuildMessage Cyclic CyclicFacts TraversalFacts.

(** Going up and then down from a hit, or down and then up, ends on
    the hit one started from. *)
Lemma seek_down_up (n : nat) (cap : nat -> bool) (fuel s r s' : nat) :
  (s < n)%nat -> cap s = true ->
  seek (wrap_succ n) cap fuel s = Some r ->
  seek (wrap_pred n) cap fuel r = Some s' ->
  s' = s.
Proof.
  intros Hs Hcap Hup Hdown.
  pose proof (seek_sound cap _ _ _ _ Hup) as Hr.
  pose proof (seek_range n cap _ _ _ _ (wrap_succ_lt n) Hs Hup) as Hrn.
  pose proof (seek_sound cap _ _ _ _ Hdown) as Hs'.
  pose proof (seek_range n cap _ _ _ _ (wrap_pred_lt n) Hrn Hdown) as Hsn'.
  destruct (seek_up_spec n cap fuel s r Hs Hup) as [[H1 H2]|[H1 [H2 H3]]];
    destruct (seek_down_spec n cap fuel r s' Hrn Hdown) as [[H4 H5]|[H4 [H5 H6]]].
  - destruct (Nat.lt_trichotomy s s') as [Hlt|[He|Hgt]]; [|auto|].
    + rewrite (H2 s') in Hs' by lia. discriminate.
    + rewrite (H5 s) in Hcap by lia. discriminate.
  - rewrite (H5 s) in Hcap by lia. discriminate.
  - rewrite (H3 s') in Hs' by lia. discriminate.
  - destruct (Nat.lt_trichotomy s s') as [Hlt|[He|Hgt]]; [|auto|].
    + rewrite (H2 s') in Hs' by lia. discriminate.
    + rewrite (H6 s) in Hcap by lia. discriminate.
Qed.

Lemma seek_up_down (n : nat) (cap : nat -> bool) (fuel s r s' : nat) :
  (s < n)%nat -> cap s = true ->
  seek (wrap_pred n) cap fuel s = Some r ->
  seek (wrap_succ n) cap fuel r = Some s' ->
  s' = s.
Proof.
  intros Hs Hcap Hdown Hup.
  pose proof (seek_sound cap _ _ _ _ Hdown) as Hr.
  pose proof (seek_range n cap _ _ _ _ (wrap_pred_lt n) Hs Hdown) as Hrn.
  pose proof (seek_sound cap _ _ _ _ Hup) as Hs'.
  pose proof (seek_range n cap _ _ _ _ (wrap_succ_lt n) Hrn Hup) as Hsn'.
  destruct (seek_down_spec n cap fuel s r Hs Hdown) as [[H1 H2]|[H1 [H2 H3]]];
    destruct (seek_up_spec n cap fuel r s' Hrn Hup) as [[H4 H5]|[H4 [H5 H6]]].
  - destruct (Nat.lt_trichotomy s s') as [Hlt|[He|Hgt]]; [|auto|].
    + rewrite (H5 s) in Hcap by lia. discriminate.
    + rewrite (H2 s') in Hs' by lia. discriminate.
  - rewrite (H5 s) in Hcap by lia. discriminate.
  - rewrite (H3 s') in Hs' by lia. discriminate.
  - destruct (Nat.lt_trichotomy s s') as [Hlt|[He|Hgt]]; [|auto|].
    + rewrite (H6 s) in Hcap by lia. discriminate.
    + rewrite (H2 s') in Hs' by lia. discriminate.
Qed.

Section Valid.
Variable regs : list ProtoViewDecoder.
Variable rest : list (option ProtoViewDecoder).
Hypothesis Hsize : Z.of_nat (length regs) < 2 ^ 32.

Local Abbreviation D := (registry_of regs rest).
Local Abbreviation n := (length regs).
Local Abbreviation cap := (buildable_at regs).

(** The inner loop of the backward step stops on the NULL entry, or
    runs out of fuel before it gets there. *)
Lemma seek_terminator_short (gas : nat) : forall i : nat,
  (i <= n)%nat -> (gas <= n - i)%nat ->
  seek_terminator D gas (Z.of_nat i) = OutOfFuel.
Proof.
  induction gas as [|gas IH]; intros i Hi Hgas; [reflexivity|].
  cbn [seek_terminator]. rewrite (Decoders_at_reg regs rest) by lia. cbn [bind].
  destruct (lookup_lt_is_Some_2 regs i) as [d ->]; [lia|].
  replace (u32 (Z.of_nat i + 1)) with (Z.of_nat (S i)) by (rewrite u32_small; lia).
  apply IH; lia.
Qed.

Lemma select_prev_loop_no_builder (gas fuel : nat) : forall i : nat,
  (i < n)%nat -> (forall j, cap j = false) ->
  select_prev_loop D gas fuel (Z.of_nat i) = OutOfFuel.
Proof.
  induction fuel as [|fuel IH]; intros i Hi Hnone; [reflexivity|].
  destruct (Nat.le_gt_cases gas n) as [Hshort|Hlong].
  - cbn [select_prev_loop]. destruct i as [|i].
    + change (Z.of_nat 0 =? 0) with true. cbn match.
      rewrite (seek_terminator_short gas 0) by lia. reflexivity.
    + destruct (Z.eqb_spec (Z.of_nat (S i)) 0); [lia|]. cbn [bind].
      replace (u32 (Z.of_nat (S i) - 1)) with (Z.of_nat i) by (rewrite u32_small; lia).
      rewrite (get_fields_is_null_reg regs rest) by lia. rewrite Hnone. cbn [bind negb].
      apply IH; [lia | exact Hnone].
  - rewrite (select_prev_loop_seek regs rest Hsize) by assumption.
    rewrite seek_diverges by exact Hnone. reflexivity.
Qed.

End Valid.

(** X1: going to the next decoder and then to the previous one, or the
    other way round, comes back to the decoder one started from. *)
Theorem next_prev_round_trip
    (regs : list ProtoViewDecoder) (rest : list (option ProtoViewDecoder))
    (privdata : BuildViewPrivData) (s fuel : nat) :
  Z.of_nat (length regs) < 2 ^ 32 ->
  cur_decoder privdata = Z.of_nat s ->
  (s < length regs)%nat ->
  buildable_at regs s = true ->
  (length regs < fuel)%nat ->
  (exists privdata',
     select_next_decoder (registry_of regs rest) fuel privdata = Ret privdata' /\
     select_prev_decoder (registry_of regs rest) fuel privdata' = Ret privdata) /\
  (exists privdata',
     select_prev_decoder (registry_of regs rest) fuel privdata = Ret privdata' /\
     select_next_decoder (registry_of regs rest) fuel privdata' = Ret privdata).
Proof.
  intros Hsize Hcur Hs Hcap Hfuel.
  assert (Hback : forall r, set_cur_decoder (set_cur_decoder privdata (Z.of_nat r)) (Z.of_nat s)
                            = privdata).
  { intros r. rewrite set_cur_decoder_twice, <- Hcur. apply set_cur_decoder_same. }
  split.
  - destruct (seek_up_terminates (length regs) (buildable_at regs) s fuel s Hs Hcap Hs)
      as [r Hr].
    { pose proof (dist_up_lt (length regs) s s Hs Hs). lia. }
    pose proof (seek_sound _ _ _ _ _ Hr) as Hcr.
    pose proof (seek_range _ _ _ _ _ _ (wrap_succ_lt (length regs)) Hs Hr) as Hrn.
    destruct (seek_down_terminates (length regs) (buildable_at regs) r fuel r Hrn Hcr Hrn)
      as [s' Hs'].
    { pose proof (dist_down_lt (length regs) r r Hrn Hrn). lia. }
    exists (set_cur_decoder privdata (Z.of_nat r)).
    unfold select_next_decoder, select_prev_decoder.
    rewrite Hcur, (select_next_loop_seek regs rest Hsize), Hr by exact Hs.
    cbn [lift bind set_cur_decoder cur_decoder].
    rewrite (select_prev_loop_seek regs rest Hsize), Hs' by assumption.
    cbn [lift bind]. split; [reflexivity|].
    rewrite (seek_down_up _ _ _ _ _ _ Hs Hcap Hr Hs'). f_equal. apply (Hback r).
  - destruct (seek_down_terminates (length regs) (buildable_at regs) s fuel s Hs Hcap Hs)
      as [r Hr].
    { pose proof (dist_down_lt (length regs) s s Hs Hs). lia. }
    pose proof (seek_sound _ _ _ _ _ Hr) as Hcr.
    pose proof (seek_range _ _ _ _ _ _ (wrap_pred_lt (length regs)) Hs Hr) as Hrn.
    destruct (seek_up_terminates (length regs) (buildable_at regs) r fuel r Hrn Hcr Hrn)
      as [s' Hs'].
    { pose proof (dist_up_lt (length regs) r r Hrn Hrn). lia. }
    exists (set_cur_decoder privdata (Z.of_nat r)).
    unfold select_next_decoder, select_prev_decoder.
    rewrite Hcur, (select_prev_loop_seek regs rest Hsize), Hr by assumption.
    cbn [lift bind set_cur_decoder cur_decoder].
    rewrite (select_next_loop_seek regs rest Hsize), Hs' by assumption.
    cbn [lift bind]. split; [reflexivity|].
    rewrite (seek_up_down _ _ _ _ _ _ Hs Hcap Hr Hs'). f_equal. apply (Hback r).
Qed.

Lemma next_prev_round_trip_witness :
  (exists privdata',
     select_next_decoder Samples.sample_Decoders 5 (Samples.browsing 3) = Ret privdata' /\
     select_prev_decoder Samples.sample_Decoders 5 privdata' = Ret (Samples.browsing 3)) /\
  (exists privdata',
     select_prev_decoder Samples.sample_Decoders 5 (Samples.browsing 3) = Ret privdata' /\
     select_next_decoder Samples.sample_Decoders 5 privdata' = Ret (Samples.browsing 3)).
Proof.
  apply (next_prev_round_trip Samples.sample_regs [] (Samples.browsing 3) 3 5);
    [reflexivity | reflexivity | cbn; lia | reflexivity | cbn; lia].
Defined.

(** X2: every decoder that can build is reached from any other one by
    fewer calls of [select_next_decoder] than there are such decoders:
    the index stored in the private data is then on it, and nothing
    else has changed. *)
Theorem every_builder_reachable
    (regs : list ProtoViewDecoder) (rest : list (option ProtoViewDecoder))
    (privdata : BuildViewPrivData) (s c fuel : nat) :
  Z.of_nat (length regs) < 2 ^ 32 ->
  cur_decoder privdata = Z.of_nat s ->
  (s < length regs)%nat -> buildable_at regs s = true ->
  (c < length regs)%nat -> buildable_at regs c = true ->
  (length regs < fuel)%nat ->
  exists (k : nat) (privdata' : BuildViewPrivData),
    (k < buildable_count regs)%nat /\
    select_next_times (registry_of regs rest) fuel k privdata = Ret privdata' /\
    cur_decoder privdata' = Z.of_nat c /\
    privdata' = set_cur_decoder privdata (Z.of_nat c).
Proof.
  intros Hsize Hcur Hs Hcs Hc Hcc Hfuel.
  rewrite <- rank_buildable.
  set (cap := buildable_at regs). set (K := rank cap (length regs)).
  pose proof (rank_lt cap s (length regs) Hs Hcs) as HsK.
  pose proof (rank_lt cap c (length regs) Hc Hcc) as HcK.
  fold K in HsK, HcK.
  set (k := if (rank cap s <=? rank cap c)%nat then (rank cap c - rank cap s)%nat
            else (K + rank cap c - rank cap s)%nat).
  assert (Hk : (k < K)%nat /\ (if (rank cap s + k <? K)%nat then (rank cap s + k)%nat
                               else (rank cap s + k - K)%nat) = rank cap c).
  { unfold k. destruct (Nat.leb_spec (rank cap s) (rank cap c)).
    - split; [lia|]. destruct (Nat.ltb_spec (rank cap s + (rank cap c - rank cap s)) K); lia.
    - split; [lia|].
      destruct (Nat.ltb_spec (rank cap s + (K + rank cap c - rank cap s)) K); lia. }
  destruct Hk as [HkK Hrank].
  destruct (seek_iter_rank (length regs) cap fuel k s) as (r & Hr & Hcr & Hrn & Hrr);
    [lia | exact Hs | exact Hcs | fold K; lia |].
  fold K in Hrr. rewrite Hrank in Hrr.
  assert (r = c) by (apply (rank_inj cap); assumption). subst r.
  exists k, (set_cur_decoder privdata (Z.of_nat c)). split; [exact HkK|].
  rewrite (select_next_times_seek regs rest Hsize fuel k privdata s Hs Hcur).
  fold cap. rewrite Hr. repeat split.
Qed.

Lemma every_builder_reachable_witness :
  exists (k : nat) (privdata' : BuildViewPrivData),
    (k < buildable_count Samples.sample_regs)%nat /\
    select_next_times Samples.sample_Decoders 5 k (Samples.browsing 3) = Ret privdata' /\
    cur_decoder privdata' = Z.of_nat 1 /\
    privdata' = set_cur_decoder (Samples.browsing 3) (Z.of_nat 1).
Proof.
  apply (every_builder_reachable Samples.sample_regs [] (Samples.browsing 3) 3 1 5);
    [reflexivity | reflexivity | cbn; lia | reflexivity | cbn; lia | reflexivity | cbn; lia].
Defined.

(** X3: in a registry where no decoder can build, neither traversal
    ever returns, and the render of the selection screen, which seeks a
    decoder that can build, does not return either. *)
Theorem no_builder_never_returns
    (regs : list ProtoViewDecoder) (rest : list (option ProtoViewDecoder))
    (privdata : BuildViewPrivData) (s fuel : nat) :
  Z.of_nat (length regs) < 2 ^ 32 ->
  cur_decoder privdata = Z.of_nat s ->
  (s < length regs)%nat ->
  (forall j, buildable_at regs j = false) ->
  select_next_decoder (registry_of regs rest) fuel privdata = OutOfFuel /\
  select_prev_decoder (registry_of regs rest) fuel privdata = OutOfFuel /\
  render_view_select_decoder (registry_of regs rest) fuel privdata = OutOfFuel.
Proof.
  intros Hsize Hcur Hs Hnone.
  assert (Hnext : select_next_decoder (registry_of regs rest) fuel privdata = OutOfFuel).
  { unfold select_next_decoder.
    rewrite Hcur, (select_next_never_returns regs rest Hsize) by assumption. reflexivity. }
  split; [exact Hnext|]. split.
  - unfold select_prev_decoder.
    rewrite Hcur, (select_prev_loop_no_builder regs rest Hsize) by assumption. reflexivity.
  - unfold render_view_select_decoder.
    rewrite Hcur, (get_fields_is_null_reg regs rest) by exact Hs.
    rewrite Hnone. cbn [bind negb]. rewrite Hnext. reflexivity.
Qed.

Lemma no_builder_never_returns_witness :
  select_next_decoder (registry_of [Samples.listen_decoder; Samples.listen_decoder] [])
    1000 (Samples.browsing 1) = OutOfFuel /\
  select_prev_decoder (registry_of [Samples.listen_decoder; Samples.listen_decoder] [])
    1000 (Samples.browsing 1) = OutOfFuel /\
  render_view_select_decoder (registry_of [Samples.listen_decoder; Samples.listen_decoder] [])
    1000 (Samples.browsing 1) = OutOfFuel.
Proof.
  apply (no_builder_never_returns [Samples.listen_decoder; Samples.listen_decoder] []
           (Samples.browsing 1) 1 1000); [reflexivity | reflexivity | cbn; lia |].
  intros [|[|j]]; reflexivity.
Defined.

End TraversalMore.

(** ** A stay in the build message view: what holds throughout *)

Module BuildSessionFacts.
Import BuildMessage BuildSession Cyclic CyclicFacts TraversalFacts.

Section Valid.
Variable regs : list ProtoViewDecoder.
Variable rest : list (option ProtoViewDecoder).
Hypothesis Hsize : Z.of_nat (length regs) < 2 ^ 32.

Local Abbreviation D := (registry_of regs rest).
Local Abbreviation n := (length regs).
Local Abbreviation cap := (buildable_at regs).

Lemma buildable_at_lookup (i : nat) :
  cap i = true -> exists d fill, regs !! i = Some d /\ get_fields d = Some fill.
Proof.
  unfold buildable_at, buildable. destruct (regs !! i) as [d|]; [|discriminate].
  destruct (get_fields d) as [fill|] eqn:Hf; [intros _; exists d, fill; auto | discriminate].
Qed.

(** The selection screen, drawn from an index of the registry. *)
Lemma render_select_spec (fuel : nat) (privdata : BuildViewPrivData) (s c : nat) :
  decoder privdata = None -> cur_decoder privdata = Z.of_nat s -> (s < n)%nat ->
  (c < n)%nat -> cap c = true -> (n <= fuel)%nat ->
  exists i d,
    render_view_build_message D fuel privdata
    = Ret (set_cur_decoder privdata (Z.of_nat i), selection_screen (name d)) /\
    regs !! i = Some d /\ (i < n)%nat /\ cap i = true /\
    (cap s = true -> i = s) /\
    (cap s = false ->
       (s < i)%nat /\ none_between cap s i \/
       (i <= s)%nat /\ none_between cap s n /\ none_below cap i).
Proof.
  intros Hdec Hcur Hs Hc Hcap Hfuel.
  unfold render_view_build_message, render_view_select_decoder. rewrite Hdec.
  rewrite Hcur. rewrite (get_fields_is_null_reg regs rest) by exact Hs.
  cbn [bind]. destruct (cap s) eqn:Hcs; cbn [negb bind].
  - destruct (buildable_at_lookup s Hcs) as (d & fill & Hd & _).
    exists s, d. rewrite Hcur, (Decoders_at_reg regs rest), Hd by lia. cbn [bind].
    rewrite <- Hcur, set_cur_decoder_same.
    repeat split; auto; discriminate.
  - destruct (select_next_decoder_spec regs rest Hsize fuel privdata s c)
      as (i & -> & Hi & Hci & Hspec); auto.
    destruct (buildable_at_lookup i Hci) as (d & fill & Hd & _).
    exists i, d. cbn [bind set_cur_decoder cur_decoder].
    rewrite (Decoders_at_reg regs rest), Hd by lia.
    repeat split; auto; discriminate.
Qed.

(** One event or redraw keeps a sound session sound. *)
Lemma run_build_op_ok (fuel : nat) (op : build_op) (privdata : BuildViewPrivData) :
  (n < fuel)%nat -> session_ok regs privdata ->
  exists privdata',
    run_build_op D fuel op privdata = Ret privdata' /\ session_ok regs privdata'.
Proof.
  intros Hfuel [Hsel|Hed].
  - destruct Hsel as (Hdec & Hfs & i & Hi & Hcur & Hci).
    destruct (buildable_at_lookup i Hci) as (d & fill & Hd & Hfill).
    destruct op as [input|]; cbn [run_build_op].
    + unfold process_input_build_message, process_input_select_decoder. rewrite Hdec.
      destruct (type_eqb (type input) InputTypeShort);
        [|exists privdata; split; [reflexivity | left; red; eauto 10]].
      destruct (key_eqb (key input) InputKeyOk).
      { rewrite Hcur, (Decoders_at_reg regs rest), Hd by lia. cbn [bind]. rewrite Hfill.
        eexists. split; [reflexivity|]. right. exists d, fill.
        cbn [decoder fieldset]. repeat split; auto.
        apply list_elem_of_In, (list_elem_of_lookup_2 _ i). exact Hd. }
      destruct (key_eqb (key input) InputKeyDown).
      { destruct (select_next_decoder_spec regs rest Hsize fuel privdata i i)
          as (j & -> & Hj & Hcj & _); auto; [lia|].
        eexists. split; [reflexivity|]. left. red. cbn [decoder fieldset cur_decoder set_cur_decoder].
        eauto 10. }
      destruct (key_eqb (key input) InputKeyUp).
      { destruct (select_prev_decoder_spec regs rest Hsize fuel privdata i i)
          as (j & -> & Hj & Hcj & _); auto.
        eexists. split; [reflexivity|]. left. red. cbn [decoder fieldset cur_decoder set_cur_decoder].
        eauto 10. }
      exists privdata. split; [reflexivity | left; red; eauto 10].
    + destruct (render_select_spec fuel privdata i i) as (j & dj & -> & _ & _ & _ & Hsame & _);
        auto; [lia|].
      rewrite (Hsame Hci), <- Hcur, set_cur_decoder_same. cbn [bind fst].
      exists privdata. split; [reflexivity | left; red; eauto 10].
  - destruct Hed as (d & fill & Hdec & Hin & Hfill & Hfs).
    destruct op as [input|]; cbn [run_build_op].
    + unfold process_input_build_message. rewrite Hdec.
      exists privdata. split; [reflexivity | right; red; eauto 10].
    + unfold render_view_build_message, render_view_set_fields. rewrite Hdec, Hfs.
      cbn [bind fst]. exists privdata. split; [reflexivity | right; red; eauto 10].
Qed.

End Valid.

(** The first render of a view just entered. *)
Lemma first_render_spec_aux
    (regs : list ProtoViewDecoder) (rest : list (option ProtoViewDecoder))
    (c fuel : nat) :
  Z.of_nat (length regs) < 2 ^ 32 ->
  (c < length regs)%nat -> buildable_at regs c = true ->
  (length regs <= fuel)%nat ->
  exists i d,
    render_view_build_message (registry_of regs rest) fuel fresh_privdata
    = Ret (set_cur_decoder fresh_privdata (Z.of_nat i), selection_screen (name d)) /\
    regs !! i = Some d /\ buildable d = true /\
    none_below (buildable_at regs) i.
Proof.
  intros Hsize Hc Hcap Hfuel.
  destruct (render_select_spec regs rest Hsize fuel fresh_privdata 0 c)
    as (i & d & Hr & Hd & Hi & Hci & Hsame & Hseek); auto; [lia|].
  exists i, d. split; [exact Hr|]. split; [exact Hd|]. split.
  - unfold buildable_at in Hci. rewrite Hd in Hci. exact Hci.
  - destruct (buildable_at regs 0) eqn:H0.
    + rewrite (Hsame eq_refl). intros j Hj. lia.
    + destruct (Hseek eq_refl) as [[Hlt Hnb]|[Hle _]].
      * intros j Hj. destruct j; [exact H0 | apply Hnb; lia].
      * assert (i = 0)%nat by lia. subst i. congruence.
Qed.

(** X4: the first render of a view just entered puts the browsed index
    on the lowest decoder of the registry that can build, and shows the
    name of that decoder. *)
Theorem first_render_seeks_lowest_builder
    (regs : list ProtoViewDecoder) (rest : list (option ProtoViewDecoder))
    (c fuel : nat) :
  Z.of_nat (length regs) < 2 ^ 32 ->
  (c < length regs)%nat -> buildable_at regs c = true ->
  (length regs <= fuel)%nat ->
  exists i d,
    render_view_build_message (registry_of regs rest) fuel fresh_privdata
    = Ret (set_cur_decoder fresh_privdata (Z.of_nat i), selection_screen (name d)) /\
    regs !! i = Some d /\ buildable d = true /\
    none_below (buildable_at regs) i /\
    selecting_ok regs (set_cur_decoder fresh_privdata (Z.of_nat i)).
Proof.
  intros Hsize Hc Hcap Hfuel.
  destruct (first_render_spec_aux regs rest c fuel Hsize Hc Hcap Hfuel)
    as (i & d & Hr & Hd & Hb & Hlow).
  exists i, d. split; [exact Hr|]. split; [exact Hd|]. split; [exact Hb|].
  split; [exact Hlow|].
  assert (Hi : (i < length regs)%nat) by (apply lookup_lt_is_Some; eauto).
  split; [reflexivity|]. split; [reflexivity|].
  exists i. split; [exact Hi|]. split; [reflexivity|].
  unfold buildable_at. rewrite Hd. exact Hb.
Qed.

Lemma first_render_seeks_lowest_builder_witness :
  exists i d,
    render_view_build_message Samples.sample_Decoders 4 fresh_privdata
    = Ret (set_cur_decoder fresh_privdata (Z.of_nat i), selection_screen (name d)) /\
    Samples.sample_regs !! i = Some d /\ buildable d = true /\
    none_below (buildable_at Samples.sample_regs) i /\
    selecting_ok Samples.sample_regs (set_cur_decoder fresh_privdata (Z.of_nat i)).
Proof.
  apply (first_render_seeks_lowest_builder Samples.sample_regs [] 3 4);
    [reflexivity | cbn; lia | reflexivity | cbn; lia].
Defined.

Example first_render_sample :
  render_view_build_message Samples.sample_Decoders 4 fresh_privdata
  = Ret (Samples.browsing 1, selection_screen "remote").
Proof. reflexivity. Qed.

(** X5: a session that is selecting on a decoder that can build, or
    editing the field set of a selected decoder, stays so through any
    series of input events and redraws; none of them faults or hangs,
    and on exit a field set is released exactly when a decoder was
    selected. *)
Theorem build_session_stays_sound
    (regs : list ProtoViewDecoder) (rest : list (option ProtoViewDecoder))
    (fuel : nat) (ops : list build_op) (privdata : BuildViewPrivData) :
  Z.of_nat (length regs) < 2 ^ 32 ->
  (length regs < fuel)%nat ->
  session_ok regs privdata ->
  exists privdata',
    run_build_ops (registry_of regs rest) fuel ops privdata = Ret privdata' /\
    session_ok regs privdata' /\
    (view_exit_build_message privdata' = None <-> decoder privdata' = None).
Proof.
  intros Hsize Hfuel. revert privdata.
  induction ops as [|op ops IH]; intros privdata Hok.
  - exists privdata. split; [reflexivity|]. split; [exact Hok|].
    unfold view_exit_build_message.
    destruct Hok as [(Hd & Hf & _)|(d & fill & Hd & _ & _ & Hf)]; rewrite Hd, Hf;
      split; (reflexivity || discriminate).
  - cbn [run_build_ops].
    destruct (run_build_op_ok regs rest Hsize fuel op privdata Hfuel Hok) as (p1 & -> & Hok1).
    cbn [bind]. apply IH. exact Hok1.
Qed.

Lemma build_session_stays_sound_witness :
  exists privdata',
    run_build_ops Samples.sample_Decoders 5
      [BuildRender; BuildInput (short_press InputKeyDown); BuildRender;
       BuildInput (short_press InputKeyOk); BuildInput (short_press InputKeyUp)]
      (Samples.browsing 1) = Ret privdata' /\
    session_ok Samples.sample_regs privdata' /\
    (view_exit_build_message privdata' = None <-> decoder privdata' = None).
Proof.
  apply (build_session_stays_sound Samples.sample_regs []);
    [reflexivity | cbn; lia |].
  left. split; [reflexivity|]. split; [reflexivity|].
  exists 1%nat. split; [cbn; lia|]. split; reflexivity.
Defined.

(** X6: in a view just entered whose first decoder cannot build, a short
    OK that comes before the first render calls through a NULL
    pointer; after one render the same OK selects the lowest decoder
    that can build and fills its field set. *)
Theorem ok_needs_a_render_first
    (regs : list ProtoViewDecoder) (rest : list (option ProtoViewDecoder))
    (d0 : ProtoViewDecoder) (c fuel : nat) :
  Z.of_nat (length regs) < 2 ^ 32 ->
  regs !! 0%nat = Some d0 -> get_fields d0 = None ->
  (c < length regs)%nat -> buildable_at regs c = true ->
  (length regs < fuel)%nat ->
  process_input_build_message (registry_of regs rest) fuel fresh_privdata
    (short_press InputKeyOk) = Fault /\
  exists i d fill,
    run_build_ops (registry_of regs rest) fuel
      [BuildRender; BuildInput (short_press InputKeyOk)] fresh_privdata
    = Ret {| decoder := Some d; cur_decoder := Z.of_nat i;
             fieldset := Some (fill fieldset_new); cur_field := 0 |} /\
    regs !! i = Some d /\ get_fields d = Some fill /\
    none_below (buildable_at regs) i.
Proof.
  intros Hsize Hd0 Hnull Hc Hcap Hfuel. split.
  - unfold process_input_build_message, process_input_select_decoder.
    cbn [fresh_privdata decoder cur_decoder short_press type key type_eqb key_eqb].
    change 0 with (Z.of_nat 0).
    rewrite (Decoders_at_reg regs rest), Hd0 by lia. cbn [bind]. rewrite Hnull. reflexivity.
  - destruct (first_render_spec_aux regs rest c fuel Hsize Hc Hcap) as (i & d & Hr & Hd & Hb & Hlow);
      [lia|].
    unfold buildable in Hb. destruct (get_fields d) as [fill|] eqn:Hfill; [|discriminate].
    exists i, d, fill. cbn [run_build_ops run_build_op]. rewrite Hr. cbn [bind fst].
    unfold process_input_build_message, process_input_select_decoder.
    cbn [fresh_privdata set_cur_decoder decoder cur_decoder short_press type key
         type_eqb key_eqb cur_field].
    assert (Hi : (i < length regs)%nat) by (apply lookup_lt_is_Some; eauto).
    rewrite (Decoders_at_reg regs rest), Hd by lia. cbn [bind]. rewrite Hfill.
    repeat split; auto.
Qed.

Lemma ok_needs_a_render_first_witness :
  process_input_build_message Samples.sample_Decoders 5 fresh_privdata
    (short_press InputKeyOk) = Fault /\
  exists i d fill,
    run_build_ops Samples.sample_Decoders 5
      [BuildRender; BuildInput (short_press InputKeyOk)] fresh_privdata
    = Ret {| decoder := Some d; cur_decoder := Z.of_nat i;
             fieldset := Some (fill fieldset_new); cur_field := 0 |} /\
    Samples.sample_regs !! i = Some d /\ get_fields d = Some fill /\
    none_below (buildable_at Samples.sample_regs) i.
Proof.
  apply (ok_needs_a_render_first Samples.sample_regs [] Samples.listen_decoder 1 5);
    [reflexivity | reflexivity | reflexivity | cbn; lia | reflexivity | cbn; lia].
Defined.

(** With an empty registry, an array holding only the NULL entry,
    every operation of the selection screen goes wrong: the forward
    step reads past the array, the backward step wraps the index to
    4294967295, and the render and a short OK go through the NULL
    entry. *)
Remark empty_registry_faults (fuel : nat) (privdata : BuildViewPrivData) :
  cur_decoder privdata = 0 ->
  decoder privdata = None ->
  select_next_decoder (registry_of [] []) (S fuel) privdata = Fault /\
  select_prev_decoder (registry_of [] []) (S fuel) privdata = Fault /\
  render_view_build_message (registry_of [] []) fuel privdata = Fault /\
  process_input_build_message (registry_of [] []) fuel privdata (short_press InputKeyOk)
  = Fault.
Proof.
  intros Hcur Hdec.
  unfold select_next_decoder, select_prev_decoder, render_view_build_message,
    render_view_select_decoder, process_input_build_message, process_input_select_decoder.
  rewrite Hdec, Hcur. repeat split.
Qed.

Lemma empty_registry_faults_witness :
  select_next_decoder (registry_of [] []) 1 fresh_privdata = Fault /\
  select_prev_decoder (registry_of [] []) 1 fresh_privdata = Fault /\
  render_view_build_message (registry_of [] []) 0 fresh_privdata = Fault /\
  process_input_build_message (registry_of [] []) 0 fresh_privdata (short_press InputKeyOk)
  = Fault.
Proof. apply (empty_registry_faults 0 fresh_privdata); reflexivity. Defined.

End BuildSessionFacts.

(** ** A stay in the direct sampling view: what holds throughout *)

Module DirectSamplingMoreFacts.
Import Bitmap BitmapFacts DirectSampling DirectSamplingMore DirectSamplingFacts.

(** *** Drawing *)

Lemma draw_row_spec (buf : list Z) (y : Z) (n : nat) : forall x : Z,
  draw_row n x y (y * 128 + x) buf
  = (flat_map (dot_if buf y) (seqZ x (Z.of_nat n)), y * 128 + x + Z.of_nat n).
Proof.
  induction n as [|n IH]; intros x.
  - cbn. f_equal. lia.
  - cbn [draw_row]. replace (y * 128 + x + 1) with (y * 128 + (x + 1)) by lia.
    rewrite IH. rewrite (seqZ_cons x (Z.of_nat (S n))) by lia. cbn [flat_map].
    replace (Z.pred (Z.of_nat (S n))) with (Z.of_nat n) by lia.
    replace (Z.succ x) with (x + 1) by lia.
    unfold dot_if at 2. f_equal. lia.
Qed.

Lemma draw_rows_spec (buf : list Z) (n : nat) : forall y : Z,
  draw_rows n y (y * 128) buf
  = flat_map (fun y => flat_map (dot_if buf y) (seqZ 0 128)) (seqZ y (Z.of_nat n)).
Proof.
  induction n as [|n IH]; intros y; [reflexivity|].
  cbn [draw_rows]. replace (y * 128) with (y * 128 + 0) at 1 by lia.
  rewrite (draw_row_spec buf y 128 0).
  rewrite (seqZ_cons y (Z.of_nat (S n))) by lia. cbn [flat_map].
  replace (Z.pred (Z.of_nat (S n))) with (Z.of_nat n) by lia.
  replace (y * 128 + 0 + Z.of_nat 128) with (Z.succ y * 128) by lia.
  rewrite IH. reflexivity.
Qed.

(** The loop with its running index draws what the closed form
    draws. *)
Lemma draw_captured_idx_eq (buf : list Z) : draw_captured_idx buf = draw_captured buf.
Proof. unfold draw_captured_idx. apply (draw_rows_spec buf 64 0). Qed.

(** X7: one render with sampling enabled shows the line as a raster:
    the pixel in column [x] of row [y] is drawn exactly when the level
    read at tick [128*y + x] was high, and nothing else is dotted. *)
Theorem render_shows_samples
    (gpio : Z -> bool) (fresh : list Z) (app : ProtoViewApp) :
  direct_sampling_enabled app = true ->
  captured_block_sized fresh (captured (view_privdata app)) ->
  exists app' calls ops,
    render_view_direct_sampling gpio fresh app = Ret (app', calls, ops) /\
    forall x y,
      In (canvas_draw_dot x y) ops <->
      0 <= x < 128 /\ 0 <= y < 64 /\ gpio (y * 128 + x) = true.
Proof.
  intros Hen Hsized. unfold render_view_direct_sampling. rewrite Hen. cbn [negb andb].
  assert (Hblock : exists b0 c1, alloc_captured fresh (captured (view_privdata app)) = (Live b0, c1)
                                 /\ Z.of_nat (length b0) = CAPTURED_BITMAP_SIZE).
  { destruct (captured (view_privdata app)); cbn in *; [eauto | eauto | contradiction]. }
  destruct Hblock as (b0 & c1 & -> & Hlen0).
  destruct (sampling_pass_spec gpio b0 Hlen0) as (_ & _ & Hb).
  destruct (sampling_pass gpio b0) as [b calls2]. cbn [fst snd] in Hb.
  eexists _, _, _. split; [reflexivity|]. intros x y.
  rewrite in_app_iff, dot_in_draw_captured. split.
  - intros [(Hx & Hy & Hbit)|[H|[H|[]]]]; try discriminate.
    rewrite Hb in Hbit by (rewrite CAPTURED_BITMAP_SIZE_eq; lia). auto.
  - intros (Hx & Hy & Hg). left. repeat split; try lia.
    rewrite Hb by (rewrite CAPTURED_BITMAP_SIZE_eq; lia). exact Hg.
Qed.

Lemma render_shows_samples_witness :
  exists app' calls ops,
    render_view_direct_sampling Samples.square_wave Samples.blank_block Samples.sampling_app
    = Ret (app', calls, ops) /\
    forall x y,
      In (canvas_draw_dot x y) ops <->
      0 <= x < 128 /\ 0 <= y < 64 /\ Samples.square_wave (y * 128 + x) = true.
Proof.
  apply (render_shows_samples Samples.square_wave Samples.blank_block Samples.sampling_app);
    reflexivity.
Defined.

(** X8: the drawing loop, which advances one index over the whole
    bitmap, dots the pixel in column [x] of row [y] exactly when bit
    [128*y + x] is set, and dots nothing outside the 128 by 64 screen. *)
Theorem draw_loop_dots (buf : list Z) (x y : Z) :
  In (canvas_draw_dot x y) (draw_captured_idx buf) <->
  0 <= x < 128 /\ 0 <= y < 64 /\ bitmap_get buf CAPTURED_BITMAP_SIZE (y * 128 + x) = true.
Proof. rewrite draw_captured_idx_eq. apply dot_in_draw_captured. Qed.

(** *** While sampling is off *)

Lemma render_idle (gpio : Z -> bool) (fresh : list Z) (app : ProtoViewApp) :
  direct_sampling_enabled app = false ->
  captured (view_privdata app) <> Dangling ->
  exists app' ops,
    render_view_direct_sampling gpio fresh app = Ret (app', [], ops) /\
    direct_sampling_enabled app' = false /\
    captured (view_privdata app') = captured (view_privdata app) /\
    usec_per_pixel (view_privdata app') = usec_per_pixel (view_privdata app) /\
    txrx app' = txrx app.
Proof.
  intros Hen Hp. unfold render_view_direct_sampling. rewrite Hen. cbn [negb andb].
  destruct (captured (view_privdata app)) as [|buf|] eqn:Hc; cbn; [| |contradiction].
  - eexists _, _. split; [reflexivity|]. auto.
  - eexists _, _. split; [reflexivity|]. auto.
Qed.

(** X9: while sampling is off and no OK press comes in, the view makes
    no call to the host at all (no read of the line, no allocation),
    and the captured screen, the pacing value aside, stays as it is. *)
Theorem idle_view_is_quiet (ops : list view_op) (app : ProtoViewApp) :
  direct_sampling_enabled app = false ->
  captured (view_privdata app) <> Dangling ->
  forallb (fun op => negb (toggles_sampling op)) ops = true ->
  exists app',
    run_ops ops app = Ret (app', []) /\
    direct_sampling_enabled app' = false /\
    captured (view_privdata app') = captured (view_privdata app) /\
    txrx app' = txrx app.
Proof.
  revert app. induction ops as [|op ops IH]; intros app Hen Hp Hops.
  - exists app. auto.
  - cbn [forallb] in Hops. apply andb_true_iff in Hops. destruct Hops as [Hop Hops].
    cbn [run_ops].
    assert (Hstep : exists app1, run_op op app = Ret (app1, []) /\
                      direct_sampling_enabled app1 = false /\
                      captured (view_privdata app1) = captured (view_privdata app) /\
                      txrx app1 = txrx app).
    { destruct op as [input|gpio fresh]; cbn [run_op].
      - eexists. split; [reflexivity|]. cbn [toggles_sampling] in Hop.
        unfold is_ok_press in Hop. unfold process_input_direct_sampling.
        cbn [direct_sampling_enabled view_privdata captured txrx].
        destruct (type_eqb (type input) InputTypePress && key_eqb (key input) InputKeyOk);
          [discriminate | auto].
      - destruct (render_idle gpio fresh app Hen Hp) as (app1 & o & -> & H1 & H2 & _ & H4).
        cbn [bind fst snd]. eauto. }
    destruct Hstep as (app1 & -> & Hen1 & Hc1 & Ht1). cbn [bind fst snd].
    destruct (IH app1 Hen1) as (app2 & -> & Hen2 & Hc2 & Ht2);
      [rewrite Hc1; exact Hp | exact Hops |].
    cbn [bind fst snd]. exists app2. repeat split; auto; congruence.
Qed.

Lemma idle_view_is_quiet_witness :
  exists app',
    run_ops [OpRender Samples.square_wave Samples.stale_block;
             OpInput (press InputKeyDown);
             OpInput {| key := InputKeyOk; type := InputTypeShort |};
             OpRender Samples.square_wave Samples.stale_block]
      (fst (view_enter_direct_sampling
              {| txrx := Samples.radio_rx; direct_sampling_enabled := false;
                 view_privdata := {| captured := Live Samples.blank_block;
                                     usec_per_pixel := 0 |} |}))
    = Ret (app', []) /\
    direct_sampling_enabled app' = false /\
    captured (view_privdata app') = Live Samples.blank_block /\
    txrx app' = Samples.radio_rx.
Proof.
  apply (idle_view_is_quiet
           [OpRender Samples.square_wave Samples.stale_block;
            OpInput (press InputKeyDown);
            OpInput {| key := InputKeyOk; type := InputTypeShort |};
            OpRender Samples.square_wave Samples.stale_block]);
    [reflexivity | discriminate | reflexivity].
Defined.

(** *** Allocation over a whole stay *)

Lemma count_calls_app (f : hal_call -> bool) (a b : list hal_call) :
  count_calls f (a ++ b) = (count_calls f a + count_calls f b)%nat.
Proof. unfold count_calls. rewrite List.filter_app, length_app. reflexivity. Qed.

Lemma sampling_ticks_no_heap_call (gpio : Z -> bool) (n : nat) :
  forall (j : Z) (buf : list Z),
  count_calls is_malloc (snd (sampling_ticks n j gpio buf)) = 0%nat /\
  count_calls is_free (snd (sampling_ticks n j gpio buf)) = 0%nat.
Proof.
  induction n as [|n IH]; intros j buf; [split; reflexivity|].
  cbn [sampling_ticks]. specialize (IH (j + 1) (bitmap_set buf CAPTURED_BITMAP_SIZE j (gpio j))).
  destruct (sampling_ticks n (j + 1) gpio (bitmap_set buf CAPTURED_BITMAP_SIZE j (gpio j))).
  exact IH.
Qed.

(** A render allocates when, and only when, it runs past the help
    screen with a NULL pointer. *)
Lemma render_heap_calls (gpio : Z -> bool) (fresh : list Z) (app : ProtoViewApp) :
  captured (view_privdata app) <> Dangling ->
  exists app' calls ops,
    render_view_direct_sampling gpio fresh app = Ret (app', calls, ops) /\
    captured (view_privdata app') <> Dangling /\
    count_calls is_free calls = 0%nat /\
    (if is_live (captured (view_privdata app)) then
       count_calls is_malloc calls = 0%nat /\ is_live (captured (view_privdata app')) = true
     else
       count_calls is_malloc calls
       = (if is_live (captured (view_privdata app')) then 1 else 0)%nat).
Proof.
  intros Hp. unfold render_view_direct_sampling.
  destruct (negb (direct_sampling_enabled app) && is_null (captured (view_privdata app)))
    eqn:Hhelp.
  { eexists _, _, _. split; [reflexivity|]. split; [exact Hp|]. split; [reflexivity|].
    destruct (captured (view_privdata app)); cbn in *; auto. }
  assert (Hpass : forall b0, exists b c2,
            (if direct_sampling_enabled app then sampling_pass gpio b0 else (b0, [])) = (b, c2)
            /\ count_calls is_malloc c2 = 0%nat /\ count_calls is_free c2 = 0%nat).
  { intros b0. destruct (direct_sampling_enabled app); [|eauto].
    pose proof (sampling_ticks_no_heap_call gpio
                  (Z.to_nat (CAPTURED_BITMAP_SIZE * 8)) 0 b0) as Hn.
    unfold sampling_pass. destruct (sampling_ticks _ 0 gpio b0) as [b c2]. eauto. }
  destruct (captured (view_privdata app)) as [|buf|] eqn:Hc; [| |contradiction];
    cbn [alloc_captured is_live].
  - destruct (Hpass fresh) as (b & c2 & -> & Hm & Hf).
    eexists _, _, _. split; [reflexivity|]. cbn [view_privdata captured is_live].
    split; [discriminate|]. rewrite !count_calls_app, Hm, Hf. split; reflexivity.
  - destruct (Hpass buf) as (b & c2 & -> & Hm & Hf).
    eexists _, _, _. split; [reflexivity|]. cbn [view_privdata captured is_live].
    split; [discriminate|]. rewrite !count_calls_app, Hm, Hf. repeat split; reflexivity.
Qed.

Lemma run_ops_heap_calls (ops : list view_op) : forall app : ProtoViewApp,
  captured (view_privdata app) <> Dangling ->
  exists app' calls,
    run_ops ops app = Ret (app', calls) /\
    captured (view_privdata app') <> Dangling /\
    count_calls is_free calls = 0%nat /\
    (if is_live (captured (view_privdata app)) then
       count_calls is_malloc calls = 0%nat /\ is_live (captured (view_privdata app')) = true
     else
       count_calls is_malloc calls
       = (if is_live (captured (view_privdata app')) then 1 else 0)%nat).
Proof.
  induction ops as [|op ops IH]; intros app Hp.
  - exists app, []. split; [reflexivity|]. split; [exact Hp|]. split; [reflexivity|].
    destruct (is_live (captured (view_privdata app))); auto.
  - cbn [run_ops].
    assert (Hop : exists app1 c1, run_op op app = Ret (app1, c1) /\
              captured (view_privdata app1) <> Dangling /\
              count_calls is_free c1 = 0%nat /\
              (if is_live (captured (view_privdata app)) then
                 count_calls is_malloc c1 = 0%nat /\
                 is_live (captured (view_privdata app1)) = true
               else
                 count_calls is_malloc c1
                 = (if is_live (captured (view_privdata app1)) then 1 else 0)%nat)).
    { destruct op as [input|gpio fresh]; cbn [run_op].
      - eexists _, _. split; [reflexivity|].
        destruct (process_input_keeps app input) as [_ Hk]. rewrite Hk.
        split; [exact Hp|]. split; [reflexivity|].
        destruct (is_live (captured (view_privdata app))); auto.
      - destruct (render_heap_calls gpio fresh app Hp) as (app1 & c1 & o & -> & H1 & H2 & H3).
        cbn [bind fst snd]. eauto 10. }
    destruct Hop as (app1 & c1 & -> & Hp1 & Hf1 & Hm1). cbn [bind fst snd].
    destruct (IH app1 Hp1) as (app2 & c2 & -> & Hp2 & Hf2 & Hm2). cbn [bind fst snd].
    eexists _, _. split; [reflexivity|]. split; [exact Hp2|].
    rewrite !count_calls_app, Hf1, Hf2. split; [reflexivity|].
    destruct (is_live (captured (view_privdata app))).
    + destruct Hm1 as [Hm1 Hl1]. rewrite Hl1 in Hm2. destruct Hm2 as [Hm2 Hl2].
      rewrite Hm1, Hm2. auto.
    + destruct (is_live (captured (view_privdata app1))).
      * destruct Hm2 as [Hm2 Hl2]. rewrite Hm1, Hm2, Hl2. reflexivity.
      * rewrite Hm1, Hm2. reflexivity.
Qed.

(** X10: over a whole stay that starts with cleared private data,
    whatever the events and redraws, the view allocates at most one
    block and frees exactly what it allocated; it ends without a live
    block. *)
Theorem session_allocation_balanced (app : ProtoViewApp) (ops : list view_op) :
  captured (view_privdata app) = NullPtr ->
  exists app' calls,
    view_session app ops = Ret (app', calls) /\
    count_calls is_malloc calls = count_calls is_free calls /\
    (count_calls is_malloc calls <= 1)%nat /\
    is_live (captured (view_privdata app')) = false /\
    direct_sampling_enabled app' = false.
Proof.
  intros Hnull. unfold view_session.
  destruct (run_ops_heap_calls ops (fst (view_enter_direct_sampling app)))
    as (app2 & mid & -> & Hp2 & Hf & Hm).
  { cbn. rewrite Hnull. discriminate. }
  cbn [view_enter_direct_sampling fst view_privdata captured] in Hm.
  rewrite Hnull in Hm. cbn [is_live] in Hm.
  cbn [bind fst snd]. unfold view_exit_direct_sampling.
  destruct (captured (view_privdata app2)) as [|buf|] eqn:Hc; [| |contradiction];
    cbn [bind fst snd Datatypes.app is_live] in *;
    (eexists _, _; split; [reflexivity|]);
    rewrite !count_calls_app, Hm, Hf;
    cbn [view_privdata captured is_live view_enter_direct_sampling snd];
    destruct (async_rx_active app), (async_rx_active app2); cbn; repeat split; auto.
Qed.

Lemma session_allocation_balanced_witness :
  exists app' calls,
    view_session Samples.sampling_app
      [OpRender Samples.square_wave Samples.stale_block;
       OpRender Samples.square_wave Samples.blank_block] = Ret (app', calls) /\
    count_calls is_malloc calls = count_calls is_free calls /\
    (count_calls is_malloc calls <= 1)%nat /\
    is_live (captured (view_privdata app')) = false /\
    direct_sampling_enabled app' = false.
Proof.
  apply (session_allocation_balanced Samples.sampling_app). reflexivity.
Defined.

(** X11: leaving the view frees the block but keeps the pointer.  If the
    private data is not cleared before the view is used again, the next
    render reads the bitmap through the freed pointer, also after
    [view_enter_direct_sampling], and a second exit frees it again. *)
Theorem exit_leaves_stale_pointer
    (app : ProtoViewApp) (buf : list Z) (gpio : Z -> bool) (fresh : list Z) :
  captured (view_privdata app) = Live buf ->
  exists app1 calls,
    view_exit_direct_sampling app = Ret (app1, free :: calls) /\
    render_view_direct_sampling gpio fresh app1 = Fault /\
    render_view_direct_sampling gpio fresh (fst (view_enter_direct_sampling app1)) = Fault /\
    render_view_direct_sampling gpio fresh
      (process_input_direct_sampling (fst (view_enter_direct_sampling app1))
         (press InputKeyOk)) = Fault /\
    view_exit_direct_sampling app1 = Fault.
Proof.
  intros Hlive. unfold view_exit_direct_sampling at 1. rewrite Hlive.
  cbn [bind fst snd Datatypes.app]. eexists _, _. split; [reflexivity|].
  repeat split.
Qed.

Lemma exit_leaves_stale_pointer_witness :
  exists app1 calls,
    view_exit_direct_sampling (Samples.captured_app Samples.blank_block)
    = Ret (app1, free :: calls) /\
    render_view_direct_sampling Samples.square_wave Samples.blank_block app1 = Fault /\
    render_view_direct_sampling Samples.square_wave Samples.blank_block
      (fst (view_enter_direct_sampling app1)) = Fault /\
    render_view_direct_sampling Samples.square_wave Samples.blank_block
      (process_input_direct_sampling (fst (view_enter_direct_sampling app1))
         (press InputKeyOk)) = Fault /\
    view_exit_direct_sampling app1 = Fault.
Proof.
  apply (exit_leaves_stale_pointer (Samples.captured_app Samples.blank_block)
           Samples.blank_block).
  reflexivity.
Defined.

(** *** Pacing, step by step *)

(** What one up or down event does to the pacing value, in plain
    integers: down adds the step (5 for a press, 25 for a repeat) and
    stops at 300; up subtracts it and stops at 5 as long as the step
    does not exceed the value, and lands on 300 when it does. *)
Lemma pacing_step (app : ProtoViewApp) (k : InputKey) (t : InputType) :
  k = InputKeyUp \/ k = InputKeyDown ->
  t = InputTypePress \/ t = InputTypeRepeat ->
  USEC_PER_PIXEL_MIN <= usec_of app <= USEC_PER_PIXEL_MAX ->
  usec_of (process_input_direct_sampling app {| key := k; type := t |})
  = if key_eqb k InputKeyDown then Z.min USEC_PER_PIXEL_MAX (usec_of app + step_of t)
    else if step_of t <=? usec_of app
         then Z.max USEC_PER_PIXEL_MIN (usec_of app - step_of t)
         else USEC_PER_PIXEL_MAX.
Proof.
  intros [-> | ->] Ht Hrange; cbn [key_eqb].
  - apply usec_after_up; assumption.
  - apply usec_after_down; assumption.
Qed.

Lemma pacing_step_witness :
  usec_of (process_input_direct_sampling Samples.sampling_app (repeated InputKeyUp)) = 25 /\
  usec_of (process_input_direct_sampling Samples.sampling_app (press InputKeyDown)) = 55.
Proof.
  split.
  - apply (pacing_step Samples.sampling_app InputKeyUp InputTypeRepeat);
      [left; reflexivity | right; reflexivity | vm_compute; split; discriminate].
  - apply (pacing_step Samples.sampling_app InputKeyDown InputTypePress);
      [right; reflexivity | left; reflexivity | vm_compute; split; discriminate].
Defined.

Lemma process_input_on_grid (app : ProtoViewApp) (input : InputEvent) :
  on_grid (usec_of app) -> on_grid (usec_of (process_input_direct_sampling app input)).
Proof.
  intros [Hrange Hmod]. destruct input as [k t].
  assert (Hother : usec_of app = usec_of app -> on_grid (usec_of app)) by (split; assumption).
  assert (Hstep : forall k' t', (k' = InputKeyUp \/ k' = InputKeyDown) ->
                    (t' = InputTypePress \/ t' = InputTypeRepeat) ->
                    on_grid (usec_of (process_input_direct_sampling app
                                        {| key := k'; type := t' |}))).
  { intros k' t' Hk Ht. rewrite (pacing_step app k' t' Hk Ht Hrange).
    unfold on_grid, USEC_PER_PIXEL_MIN, USEC_PER_PIXEL_MAX in *.
    assert (Hs : step_of t' mod 5 = 0 /\ 5 <= step_of t' <= 25)
      by (destruct Ht as [-> | ->];
          unfold step_of, USEC_PER_PIXEL_SMALL_CHANGE, USEC_PER_PIXEL_LARGE_CHANGE; cbn;
          split; (reflexivity || lia)).
    destruct Hs as [Hs Hsr].
    assert (Hadd : (usec_of app + step_of t') mod 5 = 0)
      by (rewrite Z.add_mod, Hmod, Hs by lia; reflexivity).
    assert (Hsub : (usec_of app - step_of t') mod 5 = 0)
      by (rewrite Zminus_mod, Hmod, Hs; reflexivity).
    destruct (key_eqb k' InputKeyDown); [|destruct (Z.leb_spec (step_of t') (usec_of app))].
    - destruct (Z.min_spec 300 (usec_of app + step_of t')) as [[? ->]|[? ->]];
        split; (reflexivity || assumption || lia).
    - destruct (Z.max_spec 5 (usec_of app - step_of t')) as [[? ->]|[? ->]];
        split; (reflexivity || assumption || lia).
    - split; [lia | reflexivity]. }
  destruct k, t; first [solve [apply Hstep; auto] | exact (Hother eq_refl)].
Qed.

(** X12: from the default set on entry, the pacing value is always one
    of 5, 10, ..., 300, whatever the input events. *)
Theorem pacing_stays_on_grid (app : ProtoViewApp) (inputs : list InputEvent) :
  let u := usec_of (process_inputs (fst (view_enter_direct_sampling app)) inputs) in
  5 <= u <= 300 /\ u mod 5 = 0.
Proof.
  cbn zeta.
  assert (H : on_grid (usec_of (fst (view_enter_direct_sampling app)))).
  { split; cbn; unfold DEFAULT_USEC_PER_PIXEL, USEC_PER_PIXEL_MIN, USEC_PER_PIXEL_MAX;
      [lia | reflexivity]. }
  revert H. generalize (fst (view_enter_direct_sampling app)).
  induction inputs as [|input inputs IH]; intros a Ha; [exact Ha|].
  apply IH, process_input_on_grid, Ha.
Qed.

End DirectSamplingMoreFacts.

(** ** The asteroids game *)

Module AsteroidsFacts.
Import Asteroids.

(** *** The shape generator *)

Lemma lfsr_next_range (x : Z) : 0 <= lfsr_next x < 256.
Proof. unfold lfsr_next, u8. apply Z.mod_pos_bound. reflexivity. Qed.

Lemma in_bytes (x : Z) : 0 <= x < 256 -> In x (seqZ 0 256).
Proof. intros H. apply list_elem_of_In, elem_of_seqZ. lia. Qed.

Lemma for_all_bytes (P : Z -> bool) :
  forallb P (seqZ 0 256) = true -> forall x, 0 <= x < 256 -> P x = true.
Proof. intros H x Hx. rewrite forallb_forall in H. apply H, in_bytes, Hx. Qed.

Lemma lfsr_period (x : Z) : 0 <= x < 256 -> lfsr_iter 217 x = x.
Proof.
  intros Hx. apply Z.eqb_eq.
  apply (for_all_bytes (fun x => lfsr_iter 217 x =? x)); [vm_compute; reflexivity | exact Hx].
Qed.

Lemma lfsr_zero (x : Z) : 0 <= x < 256 -> (lfsr_next x = 0 <-> x = 0).
Proof.
  intros Hx.
  assert (H : Bool.eqb (lfsr_next x =? 0) (x =? 0) = true).
  { apply (for_all_bytes (fun x => Bool.eqb (lfsr_next x =? 0) (x =? 0)));
      [vm_compute; reflexivity | exact Hx]. }
  apply Bool.eqb_prop in H. revert H.
  destruct (Z.eqb_spec (lfsr_next x) 0), (Z.eqb_spec x 0); intros H; try discriminate H;
    split; intros; auto; contradiction.
Qed.

Lemma lfsr_iter_next (k : nat) (x : Z) : lfsr_iter k (lfsr_next x) = lfsr_next (lfsr_iter k x).
Proof. revert x. induction k as [|k IH]; intros x; [reflexivity|]. cbn. apply IH. Qed.

Lemma lfsr_iter_range (k : nat) (x : Z) : 0 <= x < 256 -> 0 <= lfsr_iter k x < 256.
Proof.
  revert x. induction k as [|k IH]; intros x Hx; [exact Hx|].
  cbn. apply IH, lfsr_next_range.
Qed.

Lemma lfsr_next_inj (x y : Z) :
  0 <= x < 256 -> 0 <= y < 256 -> lfsr_next x = lfsr_next y -> x = y.
Proof.
  intros Hx Hy He.
  assert (Hback : forall z, 0 <= z < 256 -> lfsr_iter 216 (lfsr_next z) = z).
  { intros z Hz. apply Z.eqb_eq.
    apply (for_all_bytes (fun z => lfsr_iter 216 (lfsr_next z) =? z));
      [vm_compute; reflexivity | exact Hz]. }
  rewrite <- (Hback x Hx), <- (Hback y Hy), He. reflexivity.
Qed.

(** X13: on bytes the generator returns a byte, returns 0 exactly for
    0 (a zero seed stays zero), and 217 steps from any byte lead back
    to it, so that it permutes the bytes. *)
Theorem lfsr_cycles (x : Z) :
  0 <= x < 256 ->
  0 <= lfsr_next x < 256 /\
  (lfsr_next x = 0 <-> x = 0) /\
  lfsr_iter 217 x = x.
Proof.
  intros Hx. split; [apply lfsr_next_range|]. split; [apply lfsr_zero, Hx | apply lfsr_period, Hx].
Qed.

Lemma lfsr_cycles_witness :
  0 <= lfsr_next 1 < 256 /\ (lfsr_next 1 = 0 <-> 1 = 0) /\ lfsr_iter 217 1 = 1.
Proof. apply (lfsr_cycles 1). lia. Defined.

(** X14: two asteroids with different shape seeds get different values
    at every step of the generator, hence at every vertex. *)
Theorem lfsr_seeds_stay_apart (k : nat) (x y : Z) :
  0 <= x < 256 -> 0 <= y < 256 -> x <> y ->
  lfsr_iter k x <> lfsr_iter k y.
Proof.
  revert x y. induction k as [|k IH]; intros x y Hx Hy Hne; [exact Hne|].
  cbn. apply IH; try apply lfsr_next_range.
  intros He. apply Hne. apply lfsr_next_inj; assumption.
Qed.

Lemma lfsr_seeds_stay_apart_witness : lfsr_iter 8 3 <> lfsr_iter 8 200.
Proof. apply (lfsr_seeds_stay_apart 8 3 200); lia. Defined.

Example lfsr_first_values :
  map (fun k => lfsr_iter k 1) [1; 2; 3; 4]%nat = [71; 228; 114; 185].
Proof. reflexivity. Qed.

(** *** Arrays kept dense *)

Lemma array_get_nat {A} (arr : list A) (i : nat) :
  array_get arr (Z.of_nat i)
  = match arr !! i with Some a => Ret a | None => Fault end.
Proof.
  unfold array_get. destruct (Z.ltb_spec (Z.of_nat i) 0); [lia|].
  rewrite Nat2Z.id. reflexivity.
Qed.

Lemma array_set_nat {A} (arr : list A) (i : nat) (a : A) :
  (i < length arr)%nat -> array_set arr (Z.of_nat i) a = Ret (<[i := a]> arr).
Proof.
  intros Hi. unfold array_set.
  destruct (Z.leb_spec 0 (Z.of_nat i)); [|lia].
  destruct (Z.ltb_spec (Z.of_nat i) (Z.of_nat (length arr))); [|lia].
  cbn [andb]. rewrite Nat2Z.id. reflexivity.
Qed.

(** Removing entry [id] of the [num] entries in use: the count goes
    down by one, the entries in use are the old ones without the one
    removed, and the entries below [id] have not moved. *)
Lemma remove_at_spec {A} (arr : list A) (num id : nat) :
  (id < num <= length arr)%nat ->
  exists arr' x,
    remove_at arr (Z.of_nat num) (Z.of_nat id) = Ret (arr', Z.of_nat (num - 1)) /\
    length arr' = length arr /\
    arr !! id = Some x /\
    take num arr ≡ₚ x :: take (num - 1) arr' /\
    take id arr' = take id arr.
Proof.
  intros [Hid Hnum]. unfold remove_at.
  replace (Z.of_nat num - 1) with (Z.of_nat (num - 1)) by lia.
  destruct (lookup_lt_is_Some_2 arr id) as [x Hx]; [lia|].
  destruct (lookup_lt_is_Some_2 arr (num - 1)) as [top Htop]; [lia|].
  assert (Htake : take num arr = take (num - 1) arr ++ [top]).
  { replace num with (S (num - 1)) at 1 by lia. apply take_S_r, Htop. }
  destruct (decide (id = num - 1)%nat) as [He|Hne].
  - destruct (Z.eqb_spec (Z.of_nat id) (Z.of_nat (num - 1))); [|lia].
    cbn [negb]. rewrite andb_false_r.
    exists arr, x. split; [reflexivity|]. split; [reflexivity|]. split; [exact Hx|].
    split; [|reflexivity].
    rewrite Htake. rewrite He in Hx. assert (x = top) by congruence. subst x.
    apply Permutation_app_comm.
  - destruct (Z.eqb_spec (Z.of_nat (num - 1)) 0); [lia|].
    destruct (Z.eqb_spec (Z.of_nat id) (Z.of_nat (num - 1))); [lia|].
    cbn [negb andb]. rewrite array_get_nat, Htop. cbn [bind].
    rewrite array_set_nat by lia. cbn [bind].
    exists (<[id := top]> arr), x. split; [reflexivity|].
    split; [apply length_insert|]. split; [exact Hx|].
    split; [|apply take_insert_ge; lia].
    rewrite Htake, take_insert_lt by lia.
    assert (Hxt : take (num - 1) arr !! id = Some x) by (rewrite lookup_take_lt by lia; exact Hx).
    rewrite insert_take_drop by (apply lookup_lt_is_Some; eauto).
    rewrite <- (take_drop_middle (take (num - 1) arr) id x Hxt) at 1.
    rewrite <- app_assoc. cbn [Datatypes.app].
    rewrite <- Permutation_middle. apply perm_skip, Permutation_app_head.
    change (top :: drop (S id) (take (num - 1) arr))
      with ([top] ++ drop (S id) (take (num - 1) arr)).
    apply Permutation_app_comm.
Qed.

Section Game.
Context {F : FloatOps}.

(** *** Key presses *)

(** X15: a key pressed when the tick counter reads [t1] and released [e]
    ticks later sets [fire] exactly when it is OK and [e < 200], also
    when the 32-bit counter wraps in between; the key's entry is
    cleared and the other keys' entries are not touched. *)
Theorem tap_sets_fire (app : AsteroidsApp) (k : InputKey) (t1 e : Z) :
  0 <= t1 < 2 ^ 32 -> 0 <= e < 2 ^ 32 ->
  let held := asteroids_update_keypress_state t1 app
                {| key := k; type := InputTypePress |} in
  let released := asteroids_update_keypress_state (u32 (t1 + e)) held
                    {| key := k; type := InputTypeRelease |} in
  pressed held k = t1 /\
  fire released = (if (e <? 200) && key_eqb k InputKeyOk then true else fire app) /\
  pressed released k = 0 /\
  (forall k', k' <> k -> pressed released k' = pressed app k') /\
  bullets released = bullets app /\ bullets_num released = bullets_num app.
Proof.
  intros Ht He. cbn zeta. unfold asteroids_update_keypress_state.
  cbn [type key type_eqb pressed fire bullets bullets_num].
  assert (Hk : key_eqb k k = true) by (destruct k; reflexivity).
  rewrite !Hk.
  assert (Hdur : u32 (u32 (t1 + e) - t1) = e).
  { unfold u32. change (2 ^ 32) with 4294967296 in *.
    destruct (Z_lt_le_dec (t1 + e) 4294967296).
    - rewrite (Z.mod_small (t1 + e)) by lia. replace (t1 + e - t1) with e by lia.
      apply Z.mod_small. lia.
    - replace ((t1 + e) mod 4294967296) with (t1 + e - 4294967296)
        by (apply (Z.mod_unique_pos _ _ 1); lia).
      symmetry. apply (Z.mod_unique_pos _ _ (-1)); lia. }
  rewrite Hdur. repeat split.
  intros k' Hne.
  assert (Hk' : key_eqb k' k = false) by (destruct k', k; try reflexivity; contradiction).
  rewrite Hk'. reflexivity.
Qed.

(** *** Bullets and asteroids removed in place *)


Lemma same_but_bullets_set (app app' : AsteroidsApp) (arr : list Bullet) (num : Z) :
  same_but_bullets app app' -> same_but_bullets app (set_bullets app' arr num).
Proof. intros H. exact H. Qed.

Lemma remove_bullet_spec (app : AsteroidsApp) (num bid : nat) :
  bullets_num app = Z.of_nat num ->
  (bid < num <= length (bullets app))%nat ->
  exists arr' b,
    remove_bullet app (Z.of_nat bid) = Ret (set_bullets app arr' (Z.of_nat (num - 1))) /\
    length arr' = length (bullets app) /\
    bullets app !! bid = Some b /\
    take num (bullets app) ≡ₚ b :: take (num - 1) arr' /\
    take bid arr' = take bid (bullets app).
Proof.
  intros Hnum Hb. unfold remove_bullet. rewrite Hnum.
  destruct (remove_at_spec (bullets app) num bid Hb) as (arr' & b & -> & H).
  cbn [bind fst snd]. eauto.
Qed.

Lemma remove_asteroid_spec (app : AsteroidsApp) (num id : nat) :
  asteroids_num app = Z.of_nat num ->
  (id < num <= length (asteroids app))%nat ->
  exists arr' a,
    remove_asteroid app (Z.of_nat id) = Ret (set_asteroids app arr' (Z.of_nat (num - 1))) /\
    length arr' = length (asteroids app) /\
    asteroids app !! id = Some a /\
    take num (asteroids app) ≡ₚ a :: take (num - 1) arr' /\
    take id arr' = take id (asteroids app).
Proof.
  intros Hnum Hb. unfold remove_asteroid. rewrite Hnum.
  destruct (remove_at_spec (asteroids app) num id Hb) as (arr' & a & -> & H).
  cbn [bind fst snd]. eauto.
Qed.

(** X16: removing a bullet or an asteroid that is in use keeps the array
    dense: the count goes down by one, the entries in use afterwards
    are the former ones without the one removed (the order may change),
    and the entries below the removed index stay where they are. *)
Theorem removal_keeps_arrays_dense (app : AsteroidsApp) (bid id : Z) :
  0 <= bid < bullets_num app -> bullets_num app <= Z.of_nat (length (bullets app)) ->
  0 <= id < asteroids_num app -> asteroids_num app <= Z.of_nat (length (asteroids app)) ->
  (exists app' b,
     remove_bullet app bid = Ret app' /\
     bullets app !! Z.to_nat bid = Some b /\
     bullets_num app' = bullets_num app - 1 /\
     live_bullets app ≡ₚ b :: live_bullets app' /\
     take (Z.to_nat bid) (bullets app') = take (Z.to_nat bid) (bullets app) /\
     length (bullets app') = length (bullets app) /\
     same_but_bullets app app') /\
  (exists app' a,
     remove_asteroid app id = Ret app' /\
     asteroids app !! Z.to_nat id = Some a /\
     asteroids_num app' = asteroids_num app - 1 /\
     live_asteroids app ≡ₚ a :: live_asteroids app' /\
     take (Z.to_nat id) (asteroids app') = take (Z.to_nat id) (asteroids app) /\
     length (asteroids app') = length (asteroids app) /\
     bullets app' = bullets app /\ bullets_num app' = bullets_num app).
Proof.
  intros Hbid Hbn Hid Han. split.
  - destruct (remove_bullet_spec app (Z.to_nat (bullets_num app)) (Z.to_nat bid))
      as (arr' & b & Hr & Hlen & Hb & Hperm & Htake); [lia | lia |].
    rewrite Z2Nat.id in Hr by lia.
    eexists _, b. split; [exact Hr|]. unfold live_bullets.
    cbn [set_bullets bullets bullets_num]. rewrite Nat2Z.id.
    repeat split; auto; lia.
  - destruct (remove_asteroid_spec app (Z.to_nat (asteroids_num app)) (Z.to_nat id))
      as (arr' & a & Hr & Hlen & Ha & Hperm & Htake); [lia | lia |].
    rewrite Z2Nat.id in Hr by lia.
    eexists _, a. split; [exact Hr|]. unfold live_asteroids.
    cbn [set_asteroids asteroids asteroids_num bullets bullets_num]. rewrite Nat2Z.id.
    repeat split; auto; lia.
Qed.

(** X17: firing never writes past the bullet array: with the array full
    the shot is dropped and nothing changes, otherwise a bullet with 50
    ticks to live is added after the ones in use. *)
Theorem fire_stays_in_bounds (app : AsteroidsApp) :
  0 <= bullets_num app <= MAXBUL ->
  Z.of_nat (length (bullets app)) = MAXBUL ->
  exists app',
    ship_fire_bullet app = Ret app' /\
    0 <= bullets_num app' <= MAXBUL /\
    length (bullets app') = length (bullets app) /\
    same_but_bullets app app' /\
    (bullets_num app = MAXBUL -> app' = app) /\
    (bullets_num app < MAXBUL ->
       bullets_num app' = bullets_num app + 1 /\
       live_bullets app' = live_bullets app ++ [new_bullet (ship app)] /\
       ttl (new_bullet (ship app)) = 50).
Proof.
  intros Hnum Hlen. unfold ship_fire_bullet.
  destruct (Z.eqb_spec (bullets_num app) MAXBUL) as [Hfull|Hroom].
  - exists app. repeat split; auto; lia.
  - remember (Z.to_nat (bullets_num app)) as n eqn:En.
    assert (Hn : bullets_num app = Z.of_nat n) by lia.
    unfold live_bullets. rewrite Hn in *. rewrite array_set_nat by lia. cbn [bind].
    eexists. split; [reflexivity|]. cbn [set_bullets bullets bullets_num].
    split; [lia|]. split; [apply length_insert|]. split; [repeat split|].
    split; [intros; lia|]. intros _. split; [reflexivity|]. split; [|reflexivity].
    replace (Z.to_nat (Z.of_nat n + 1)) with (S n) by lia. rewrite Nat2Z.id.
    rewrite (take_S_r _ n (new_bullet (ship app)))
      by (apply list_lookup_insert_eq; lia).
    rewrite take_insert_ge by lia. reflexivity.
Qed.

(** *** The bullets loop of [game_tick] *)




(** *** The collision loop of [game_tick] *)

Lemma first_hit_spec (n : nat) : forall (i : nat) (arr : list Asteroid) (b : Bullet),
  (i + n <= length arr)%nat ->
  (exists k a, first_hit n (Z.of_nat i) arr b = Ret (Some (Z.of_nat k)) /\
               (i <= k < i + n)%nat /\ arr !! k = Some a /\ hits a b = true) \/
  (first_hit n (Z.of_nat i) arr b = Ret None /\
   forall a, a ∈ take n (drop i arr) -> hits a b = false).
Proof.
  induction n as [|n IH]; intros i arr b Hlen.
  - right. split; [reflexivity|]. intros a Ha. rewrite take_0 in Ha. inversion Ha.
  - cbn [first_hit]. destruct (lookup_lt_is_Some_2 arr i) as [a Ha]; [lia|].
    rewrite array_get_nat, Ha. cbn [bind]. destruct (hits a b) eqn:Hhit.
    + left. exists i, a. repeat split; auto; lia.
    + replace (Z.of_nat i + 1) with (Z.of_nat (S i)) by lia.
      destruct (IH (S i) arr b) as [(k & a' & Hr & Hk & Ha' & Hh)|[Hr Hnone]]; [lia | |].
      * left. exists k, a'. repeat split; auto; lia.
      * right. split; [exact Hr|]. intros a' Hin.
        rewrite (drop_S arr a i Ha) in Hin. cbn [take] in Hin.
        apply elem_of_cons in Hin. destruct Hin as [->|Hin]; [exact Hhit | apply Hnone, Hin].
Qed.

Lemma collide_from (fuel : nat) : forall (j nb na : nat) (app : AsteroidsApp),
  bullets_num app = Z.of_nat nb -> asteroids_num app = Z.of_nat na ->
  (j <= nb <= length (bullets app))%nat -> (na <= length (asteroids app))%nat ->
  (nb - j < fuel)%nat ->
  no_hit (take j (bullets app)) (live_asteroids app) ->
  exists app' (gone : list (Asteroid * Bullet)),
    collide fuel (Z.of_nat j) app = Ret app' /\
    Forall (fun p => hits (fst p) (snd p) = true) gone /\
    live_bullets app ≡ₚ (snd <$> gone) ++ live_bullets app' /\
    live_asteroids app ≡ₚ (fst <$> gone) ++ live_asteroids app' /\
    bullets_num app' = Z.of_nat nb - Z.of_nat (length gone) /\
    asteroids_num app' = Z.of_nat na - Z.of_nat (length gone) /\
    0 <= bullets_num app' /\ 0 <= asteroids_num app' /\
    length (bullets app') = length (bullets app) /\
    length (asteroids app') = length (asteroids app) /\
    no_hit (live_bullets app') (live_asteroids app').
Proof.
  induction fuel as [|fuel IH]; intros j nb na app Hnb Hna Hj Hlen Hfuel Hinv; [lia|].
  cbn [collide]. rewrite Hnb.
  destruct (Z.ltb_spec (Z.of_nat j) (Z.of_nat nb)) as [Hlt|Hge].
  - destruct (lookup_lt_is_Some_2 (bullets app) j) as [b Hb]; [lia|].
    rewrite array_get_nat, Hb. cbn [bind]. rewrite Hna, Nat2Z.id.
    change 0 with (Z.of_nat 0).
    destruct (first_hit_spec na 0 (asteroids app) b) as [(k & a & -> & Hk & Ha & Hhit)|[-> Hnone]];
      [lia | |]; cbn [bind].
    + destruct (remove_asteroid_spec app na k Hna) as (asts2 & a' & -> & Hl2 & Ha' & Hpa & _);
        [lia|].
      rewrite Ha in Ha'. injection Ha' as <-. cbn [bind].
      destruct (remove_bullet_spec (set_asteroids app asts2 (Z.of_nat (na - 1))) nb j)
        as (buls2 & b' & -> & Hlb2 & Hb' & Hpb & Hpre);
        [exact Hnb | cbn [set_asteroids bullets]; lia |].
      cbn [set_asteroids set_bullets bullets bullets_num asteroids asteroids_num] in *.
      rewrite Hb in Hb'. injection Hb' as <-. cbn [bind].
      replace (Z.of_nat j - 1 + 1) with (Z.of_nat j) by lia.
      destruct (IH j (nb - 1)%nat (na - 1)%nat
                  {| running := running app; ticks := ticks app; ship := ship app;
                     bullets := buls2; bullets_num := Z.of_nat (nb - 1);
                     asteroids := asts2; asteroids_num := Z.of_nat (na - 1);
                     pressed := pressed app; fire := fire app |})
        as (app' & gone & Hr & Hall & Hpb' & Hpa' & Hnb' & Hna' & H0b & H0a & Hlb' & Hla' & Hno);
        [reflexivity | reflexivity | cbn [bullets]; lia | cbn [asteroids]; lia | lia | |].
      { unfold live_asteroids. cbn [bullets asteroids asteroids_num]. rewrite Nat2Z.id, Hpre.
        intros b1 a1 Hb1 Ha1. apply (Hinv b1 a1 Hb1).
        unfold live_asteroids. rewrite Hna, Nat2Z.id, Hpa. apply elem_of_cons. right. exact Ha1. }
      unfold live_bullets, live_asteroids in Hpb', Hpa'.
      cbn [bullets bullets_num asteroids asteroids_num] in *.
      rewrite Nat2Z.id in Hpb', Hpa'.
      exists app', ((a, b) :: gone). split; [exact Hr|].
      split; [constructor; [exact Hhit | exact Hall]|].
      unfold live_bullets at 1, live_asteroids at 1. rewrite Hnb, Hna, !Nat2Z.id.
      cbn [fmap list_fmap fst snd Datatypes.app length].
      split; [rewrite Hpb, Hpb'; reflexivity|].
      split; [rewrite Hpa, Hpa'; reflexivity|].
      repeat split; try lia; try congruence; exact Hno.
    + replace (Z.of_nat 0 + 1) with 1 by reflexivity.
      replace (Z.of_nat j + 1) with (Z.of_nat (S j)) by lia.
      destruct (IH (S j) nb na app)
        as (app' & gone & Hr & Hall & Hpb' & Hpa' & Hnb' & Hna' & H0b & H0a & Hlb' & Hla' & Hno);
        [assumption | assumption | lia | lia | lia | |].
      { rewrite (take_S_r _ j b Hb). intros b1 a1 Hb1 Ha1.
        apply elem_of_app in Hb1. destruct Hb1 as [Hb1|Hb1]; [apply (Hinv b1 a1 Hb1 Ha1)|].
        apply list_elem_of_singleton in Hb1. subst b1. apply Hnone.
        rewrite drop_0. unfold live_asteroids in Ha1. rewrite Hna, Nat2Z.id in Ha1. exact Ha1. }
      exists app', gone. repeat split; assumption.
  - assert (j = nb) by lia. subst j. exists app, [].
    split; [reflexivity|]. split; [constructor|].
    cbn [fmap list_fmap Datatypes.app length].
    split; [reflexivity|]. split; [reflexivity|].
    repeat split; try lia.
    unfold live_bullets. rewrite Hnb, Nat2Z.id. exact Hinv.
Qed.

(** X19: the collision loop of [game_tick] removes bullets and asteroids
    in pairs, each pair a bullet inside an asteroid; the two counts go
    down by the same number, and afterwards no bullet in use is inside
    an asteroid in use. *)
Theorem collisions_remove_pairs (fuel : nat) (app : AsteroidsApp) :
  arrays_ok app ->
  bullets_num app < Z.of_nat fuel ->
  exists app' (gone : list (Asteroid * Bullet)),
    collide fuel 0 app = Ret app' /\
    Forall (fun p => hits (fst p) (snd p) = true) gone /\
    live_bullets app ≡ₚ (snd <$> gone) ++ live_bullets app' /\
    live_asteroids app ≡ₚ (fst <$> gone) ++ live_asteroids app' /\
    bullets_num app' = bullets_num app - Z.of_nat (length gone) /\
    asteroids_num app' = asteroids_num app - Z.of_nat (length gone) /\
    arrays_ok app' /\
    no_hit (live_bullets app') (live_asteroids app').
Proof.
  intros [Hb Ha] Hfuel.
  destruct (collide_from fuel 0 (Z.to_nat (bullets_num app)) (Z.to_nat (asteroids_num app)) app)
    as (app' & gone & Hr & Hall & Hpb & Hpa & Hnb & Hna & H0b & H0a & Hlb & Hla & Hno);
    [lia | lia | lia | lia | lia | |].
  { intros b a Hin. rewrite take_0 in Hin. inversion Hin. }
  rewrite Z2Nat.id in Hnb, Hna by lia.
  exists app', gone. repeat split; auto; try lia.
Qed.

End Game.

Lemma tap_sets_fire_witness :
  let held := asteroids_update_keypress_state 4294967200 AsteroidSamples.game
                {| key := InputKeyOk; type := InputTypePress |} in
  let released := asteroids_update_keypress_state (u32 (4294967200 + 150)) held
                    {| key := InputKeyOk; type := InputTypeRelease |} in
  pressed held InputKeyOk = 4294967200 /\ fire released = true /\
  pressed released InputKeyOk = 0.
Proof.
  destruct (tap_sets_fire AsteroidSamples.game InputKeyOk 4294967200 150)
    as (H1 & H2 & H3 & _); [split; [discriminate | reflexivity] .. |].
  cbn zeta in *. split; [exact H1 | split; [exact H2 | exact H3]].
Defined.

Lemma removal_keeps_arrays_dense_witness :
  (exists app' b,
     remove_bullet AsteroidSamples.game 0 = Ret app' /\
     live_bullets AsteroidSamples.game ≡ₚ b :: live_bullets app') /\
  (exists app' a,
     remove_asteroid AsteroidSamples.game 1 = Ret app' /\
     live_asteroids AsteroidSamples.game ≡ₚ a :: live_asteroids app').
Proof.
  destruct (removal_keeps_arrays_dense AsteroidSamples.game 0 1)
    as [(app1 & b & H1 & _ & _ & H2 & _) (app2 & a & H3 & _ & _ & H4 & _)];
    [cbn; lia .. |].
  split; [exists app1, b | exists app2, a]; split; assumption.
Defined.

Lemma fire_stays_in_bounds_witness :
  exists app',
    ship_fire_bullet AsteroidSamples.game = Ret app' /\
    0 <= bullets_num app' <= MAXBUL /\
    same_but_bullets AsteroidSamples.game app'.
Proof.
  destruct (fire_stays_in_bounds AsteroidSamples.game) as (app' & H1 & H2 & _ & H3 & _);
    [cbn; unfold MAXBUL; lia | reflexivity |].
  exists app'. split; [exact H1 | split; [exact H2 | exact H3]].
Defined.


Lemma collisions_remove_pairs_witness :
  exists app' (gone : list (@Asteroid AsteroidSamples.Zfloat * @Bullet AsteroidSamples.Zfloat)),
    collide 4 0 AsteroidSamples.game = Ret app' /\
    bullets_num app' = bullets_num AsteroidSamples.game - Z.of_nat (length gone) /\
    no_hit (live_bullets app') (live_asteroids app').
Proof.
  destruct (collisions_remove_pairs 4 AsteroidSamples.game)
    as (app' & gone & H1 & _ & _ & _ & H2 & _ & _ & H3);
    [split; cbn; lia | cbn; lia |].
  exists app', gone. split; [exact H1 | split; [exact H2 | exact H3]].
Defined.

(** On the sample game a tick of the two loops leaves two bullets, then
    one bullet and one asteroid. *)
Example loops_on_sample :
  (let! app := update_bullets 4 0 AsteroidSamples.game in Ret (bullets_num app)) = Ret 2 /\
  (let! app := update_bullets 4 0 AsteroidSamples.game in
   let! app := collide 4 0 app in
   Ret (bullets_num app, asteroids_num app)) = Ret (1, 1).
Proof. split; reflexivity. Qed.

End AsteroidsFacts.
